(** * rktest: the test runner of [src/rktest.c]

    A shallow embedding of the runner's three stages: the walk over the
    [rktest] data section that collects the registered tests
    ([skip_until_next_test], [setup_test_env]), the execution of the
    collected suites ([run_test], [run_all_tests]) and the status returned
    by [rktest_main].

    Pointers into the data section are offsets (in pointer-sized slots) from
    [&test_data_begin]; fixed-capacity C arrays are lists of their declared
    length, written through a bounds-checked [store]; [exit(1)], reads
    outside the data section and writes outside an array are explicit
    outcomes.  The [size_t] counters are [nat]: each of them counts elements
    of an array of the program, so none can wrap.  The two loops over the
    data section run on a step bound ([fuel]); the loops over arrays are
    structural.  The two limits of rktest.h are parameters. *)

From Stdlib Require Import ZArith Lia.
From stdpp Require Import base tactics option list strings.

Local Open Scope string_scope.
Local Open Scope nat_scope.
Local Open Scope list_scope.

(** ** Outcomes of a computation *)

(** The two diagnostics [setup_test_env] prints before [exit(1)]. *)
Inductive diagnostic :=
  | TooManySuites                    (* "number of test suites is greater than RKTEST_MAX_NUM_TEST_SUITES" *)
  | TooManyTests (suite : string).   (* "number of tests in suite %s is greater than RKTEST_MAX_NUM_TESTS_PER_SUITE" *)

(** Behaviour the C standard leaves undefined. *)
Inductive fault :=
  | SectionOverrun    (* [*it] with [it] beyond [&test_data_end] *)
  | NullDescriptor    (* [test->suite_name] with [test == NULL] *)
  | ArrayOverflow.    (* access to [a[i]] with [i] not below the declared length of [a] *)

Inductive outcome (A : Type) :=
  | Ok (a : A)
  | Exit (d : diagnostic)     (* the process ended in [exit(1)] *)
  | Undefined (f : fault)
  | OutOfFuel.                (* the loop was cut off by the model's step bound *)
Arguments Ok {A} a.
Arguments Exit {A} d.
Arguments Undefined {A} f.
Arguments OutOfFuel {A}.

#[global] Instance outcome_ret : MRet outcome := @Ok.
#[global] Instance outcome_bind : MBind outcome := λ A B f m,
  match m with
  | Ok a => f a
  | Exit d => Exit d
  | Undefined u => Undefined u
  | OutOfFuel => OutOfFuel
  end.

(** [foreach] over the elements of a list, threading a state. *)
Fixpoint foreach {A S : Type} (body : A → S → outcome S) (l : list A) (s : S) : outcome S :=
  match l with
  | [] => Ok s
  | x :: l' => s' ← body x s; foreach body l' s'
  end.

(** ** Data model *)

(** What the body of a test function does, as far as the runner can see
    it: [g_current_test_failed] is [static], so a test reaches it only
    through [rktest_fail_current_test], called directly or from helpers
    ([Seq] nests).  Test functions are taken to return. *)
Inductive test_code :=
  | Skip
  | FailCurrentTest
  | Seq (c1 c2 : test_code).

(** [rktest_test_t] (declared in rktest.h): the names and the function
    pointer, [None] for a null [func]. *)
Record rktest_test_t := {
  suite_name : string;
  test_name : string;
  func : option test_code;
}.

#[global] Instance test_code_eq_dec : EqDecision test_code.
Proof. solve_decision. Defined.
#[global] Instance rktest_test_t_eq_dec : EqDecision rktest_test_t.
Proof. solve_decision. Defined.

(** The all-zero value of the [{ 0 }] initialisers. *)
Definition zero_test : rktest_test_t :=
  {| suite_name := ""; test_name := ""; func := None |}.

Record rktest_suite_t := {
  name : string;
  tests : list rktest_test_t;      (* rktest_test_t tests[RKTEST_MAX_NUM_TESTS_PER_SUITE] *)
  num_tests : nat;
}.

Record rktest_environment_t := {
  test_suites : list rktest_suite_t;   (* rktest_suite_t test_suites[RKTEST_MAX_NUM_TEST_SUITES] *)
  num_test_suites : nat;
  total_num_tests : nat;
}.

Record rktest_report_t := {
  num_passed_tests : nat;
  failed_tests : list rktest_test_t;   (* rktest_test_t failed_tests[RKTEST_MAX_NUM_TESTS] *)
  num_failed_tests : nat;
}.

(** [a[i] = v] and [a[i]] on an array of declared length [length a]. *)
Definition store {A : Type} (a : list A) (i : nat) (v : A) : outcome (list A) :=
  if decide (i < length a) then Ok (<[i:=v]> a) else Undefined ArrayOverflow.

Definition load {A : Type} (a : list A) (i : nat) : outcome A :=
  match a !! i with
  | Some v => Ok v
  | None => Undefined ArrayOverflow
  end.

(** ** The rktest data section *)

(** The data section as the linker laid it out: the pointer-sized slots
    strictly between [test_data_begin] and [test_data_end], each holding a
    pointer to a test ([Some]) or null padding ([None]).  Slot [i] of the
    list is at offset [i + 1] from [&test_data_begin]; as in the layout
    drawn in rktest.c, the first slot may hold a test, and padding may lie
    anywhere. *)
Abbreviation registry := (list (option rktest_test_t)).

(** [&test_data_end], as an offset from [&test_data_begin]. *)
Definition test_data_end (reg : registry) : nat := S (length reg).

(** [*it]: both markers hold [NULL]; [None] when [it] is outside the
    section. *)
Definition deref (reg : registry) (it : nat) : option (option rktest_test_t) :=
  match it with
  | 0 => Some None
  | S i => if decide (i = length reg) then Some None else reg !! i
  end.

(** [do { it++; } while (it != &test_data_end && *it == NULL); return it;] *)
Fixpoint skip_until_next_test (fuel : nat) (reg : registry) (it : nat) : outcome nat :=
  match fuel with
  | 0 => OutOfFuel
  | S fuel' =>
      let it := S it in
      if decide (it = test_data_end reg) then Ok it
      else match deref reg it with
           | None => Undefined SectionOverrun
           | Some None => skip_until_next_test fuel' reg it
           | Some (Some _) => Ok it
           end
  end.

(** [reaches body l s x sx]: the loop [foreach body l] started in state [s]
    comes to call [body x] in state [sx]. *)
Inductive reaches {A S : Type} (body : A → S → outcome S) : list A → S → A → S → Prop :=
  | reaches_here x l s : reaches body (x :: l) s x s
  | reaches_later x l s s' y sy :
      body x s = Ok s' → reaches body l s' y sy → reaches body (x :: l) s y sy.

(** ** Sample tests *)

Definition A_t1 : rktest_test_t :=
  {| suite_name := "A"; test_name := "t1"; func := Some Skip |}.
Definition A_t2 : rktest_test_t :=
  {| suite_name := "A"; test_name := "t2";
     func := Some (Seq FailCurrentTest (Seq Skip FailCurrentTest)) |}.
Definition B_t1 : rktest_test_t :=
  {| suite_name := "B"; test_name := "t1"; func := None |}.

(** The registry of the end-to-end scenario, behind one slot of padding,
    and the environment built from it when both limits are 2. *)
Definition sample_registry : registry :=
  [None; Some A_t1; Some A_t2; None; Some B_t1].

Definition sample_env : rktest_environment_t :=
  {| test_suites :=
       [ {| name := "A"; tests := [A_t1; A_t2]; num_tests := 2 |};
         {| name := "B"; tests := [B_t1; zero_test]; num_tests := 1 |} ];
     num_test_suites := 2;
     total_num_tests := 3 |}.

(** ** Building the environment *)

Section Runner.

(** The two configuration constants of rktest.h. *)
Variables RKTEST_MAX_NUM_TEST_SUITES RKTEST_MAX_NUM_TESTS_PER_SUITE : nat.

Definition RKTEST_MAX_NUM_TESTS : nat :=
  RKTEST_MAX_NUM_TEST_SUITES * RKTEST_MAX_NUM_TESTS_PER_SUITE.

Definition zero_suite : rktest_suite_t :=
  {| name := "";
     tests := replicate RKTEST_MAX_NUM_TESTS_PER_SUITE zero_test;
     num_tests := 0 |}.

(** The linear scan over [suites[0 .. num_suites)]; the result is the index
    of the suite the returned pointer designates, [None] for [NULL]. *)
Definition find_suite_with_name (suites : list rktest_suite_t) (num_suites : nat)
    (suite_name : string) : option nat :=
  fst <$> list_find (λ suite, name suite = suite_name) (take num_suites suites).

Definition add_new_suite (env : rktest_environment_t) (suite_name : string)
    : outcome (rktest_environment_t * nat) :=
  let i := num_test_suites env in
  suites ← store (test_suites env) i
             {| name := suite_name;
                tests := replicate RKTEST_MAX_NUM_TESTS_PER_SUITE zero_test;
                num_tests := 0 |};
  Ok ({| test_suites := suites;
         num_test_suites := S i;
         total_num_tests := total_num_tests env |}, i).

Definition find_or_add_suite (env : rktest_environment_t) (suite_name : string)
    : outcome (rktest_environment_t * nat) :=
  match find_suite_with_name (test_suites env) (num_test_suites env) suite_name with
  | Some i => Ok (env, i)
  | None => add_new_suite env suite_name
  end.

(** The body of the loop of [setup_test_env], for the test [*it]. *)
Definition add_test (test : rktest_test_t) (env : rktest_environment_t)
    : outcome rktest_environment_t :=
  if decide (num_test_suites env = RKTEST_MAX_NUM_TEST_SUITES) then Exit TooManySuites
  else
    '(env, i) ← find_or_add_suite env (suite_name test);
    suite ← load (test_suites env) i;
    if decide (num_tests suite = RKTEST_MAX_NUM_TESTS_PER_SUITE)
    then Exit (TooManyTests (name suite))
    else
      tests' ← store (tests suite) (num_tests suite) test;
      Ok {| test_suites :=
              <[i := {| name := name suite;
                        tests := tests';
                        num_tests := S (num_tests suite) |}]> (test_suites env);
            num_test_suites := num_test_suites env;
            total_num_tests := S (total_num_tests env) |}.

(** [for (...; it != &test_data_end; it = skip_until_next_test(it))] *)
Fixpoint setup_loop (fuel : nat) (reg : registry) (it : nat)
    (env : rktest_environment_t) : outcome rktest_environment_t :=
  match fuel with
  | 0 => OutOfFuel
  | S fuel' =>
      if decide (it = test_data_end reg) then Ok env
      else match deref reg it with
           | None => Undefined SectionOverrun
           | Some None => Undefined NullDescriptor
           | Some (Some test) =>
               env' ← add_test test env;
               it' ← skip_until_next_test fuel' reg it;
               setup_loop fuel' reg it' env'
           end
  end.

Definition empty_env : rktest_environment_t :=
  {| test_suites := replicate RKTEST_MAX_NUM_TEST_SUITES zero_suite;
     num_test_suites := 0;
     total_num_tests := 0 |}.

Definition setup_test_env (fuel : nat) (reg : registry) : outcome rktest_environment_t :=
  it ← skip_until_next_test fuel reg 1;
  setup_loop fuel reg it empty_env.

(** ** Running the tests *)

(** The lines the runner prints through [rktest_log_info],
    [rktest_log_error] and [printf]. *)
Inductive notice :=
  | RunningNotice (num_tests num_suites : nat)   (* "[==========] Running %zu tests from %zu test suites." *)
  | SetUpNotice                                  (* "[----------] Global test environment set-up." *)
  | SuiteNotice (num_tests : nat) (suite : string)      (* "[----------] %zu tests from %s" *)
  | RunNotice (suite test : string)              (* "[ RUN      ] %s.%s" *)
  | OkNotice (suite test : string)               (* "[       OK ] %s.%s" *)
  | FailedNotice (suite test : string)           (* "[  FAILED  ] %s.%s", error-styled *)
  | SuiteDoneNotice (num_tests : nat) (suite : string)  (* "[----------] %zu tests from %s (xx ms total)" *)
  | BlankLine
  | TearDownNotice                               (* "[----------] Global test environment tear-down." *)
  | RanNotice (num_tests num_suites : nat)       (* "[==========] %zu tests from %zu test suites ran." *)
  | PassedNotice (num_tests : nat)               (* "[  PASSED  ] %zu tests." *)
  | FailedListNotice (num_tests : nat)           (* "[  FAILED  ] %zu tests, listed below:" *)
  | FailedCountNotice (num_tests : nat).         (* " %zu FAILED TESTS" *)

(** The file-scope variables and what has been printed so far. *)
Record world := {
  g_colors_enabled : bool;
  g_current_test_failed : bool;
  output : list notice;
}.

(** The state of the process when [main] starts. *)
Definition initial_world : world :=
  {| g_colors_enabled := false; g_current_test_failed := false; output := [] |}.

Definition print (n : notice) (w : world) : world :=
  {| g_colors_enabled := g_colors_enabled w;
     g_current_test_failed := g_current_test_failed w;
     output := output w ++ [n] |}.

Definition set_current_test_failed (b : bool) (w : world) : world :=
  {| g_colors_enabled := g_colors_enabled w;
     g_current_test_failed := b;
     output := output w |}.

Definition rktest_colors_enabled (w : world) : bool := g_colors_enabled w.

Definition rktest_fail_current_test (w : world) : world :=
  set_current_test_failed true w.

(** [initialize], without the WIN32 console set-up. *)
Definition initialize (w : world) : world :=
  {| g_colors_enabled := true;
     g_current_test_failed := g_current_test_failed w;
     output := output w |}.

(** [test->func()] *)
Fixpoint call (c : test_code) (w : world) : world :=
  match c with
  | Skip => w
  | FailCurrentTest => rktest_fail_current_test w
  | Seq c1 c2 => call c2 (call c1 w)
  end.

Definition run_test (test : rktest_test_t) (w : world) : bool * world :=
  let w := print (RunNotice (suite_name test) (test_name test)) w in
  let w := match func test with
           | Some f => call f w
           | None => w
           end in
  let test_passed := negb (g_current_test_failed w) in
  let w := set_current_test_failed false w in
  let w := if test_passed
           then print (OkNotice (suite_name test) (test_name test)) w
           else print (FailedNotice (suite_name test) (test_name test)) w in
  (test_passed, w).

(** The body of the inner loop of [run_all_tests]. *)
Definition run_and_record (test : rktest_test_t) (st : rktest_report_t * world)
    : outcome (rktest_report_t * world) :=
  let '(report, w) := st in
  let '(test_passed, w) := run_test test w in
  if test_passed then
    Ok ({| num_passed_tests := S (num_passed_tests report);
           failed_tests := failed_tests report;
           num_failed_tests := num_failed_tests report |}, w)
  else
    failed ← store (failed_tests report) (num_failed_tests report) test;
    Ok ({| num_passed_tests := num_passed_tests report;
           failed_tests := failed;
           num_failed_tests := S (num_failed_tests report) |}, w).

(** The body of the outer loop of [run_all_tests]. *)
Definition run_suite (suite : rktest_suite_t) (st : rktest_report_t * world)
    : outcome (rktest_report_t * world) :=
  let '(report, w) := st in
  let w := print (SuiteNotice (num_tests suite) (name suite)) w in
  '(report, w) ← foreach run_and_record (take (num_tests suite) (tests suite)) (report, w);
  let w := print (SuiteDoneNotice (num_tests suite) (name suite)) w in
  let w := print BlankLine w in
  Ok (report, w).

Definition empty_report : rktest_report_t :=
  {| num_passed_tests := 0;
     failed_tests := replicate RKTEST_MAX_NUM_TESTS zero_test;
     num_failed_tests := 0 |}.

Definition run_all_tests (env : rktest_environment_t) (w : world)
    : outcome (rktest_report_t * world) :=
  foreach run_suite (take (num_test_suites env) (test_suites env)) (empty_report, w).

Definition print_failed_tests (report : rktest_report_t) (w : world) : world :=
  let w := print (FailedListNotice (num_failed_tests report)) w in
  let w := foldl (λ w failed_test,
                    print (FailedNotice (suite_name failed_test) (test_name failed_test)) w)
                 w (take (num_failed_tests report) (failed_tests report)) in
  let w := print BlankLine w in
  print (FailedCountNotice (num_failed_tests report)) w.

(** [rktest_main], with the report it frees before returning. *)
Definition rktest_main_report (fuel : nat) (reg : registry) (w : world)
    : outcome (Z * rktest_report_t * world) :=
  let w := initialize w in
  env ← setup_test_env fuel reg;
  let w := print (RunningNotice (total_num_tests env) (num_test_suites env)) w in
  let w := print SetUpNotice w in
  '(report, w) ← run_all_tests env w;
  let w := print TearDownNotice w in
  let w := print (RanNotice (total_num_tests env) (num_test_suites env)) w in
  let w := print (PassedNotice (num_passed_tests report)) w in
  let tests_passed := bool_decide (num_failed_tests report = 0) in
  let w := if negb tests_passed then print_failed_tests report w else w in
  Ok (Z.b2z tests_passed, report, w).

Definition rktest_main (fuel : nat) (reg : registry) (w : world) : outcome (Z * world) :=
  '(status, _, w) ← rktest_main_report fuel reg w;
  Ok (status, w).

(** ** Reading an environment and a report *)

(** The part of the arrays the counters make meaningful: each suite with
    its tests [tests[0 .. num_tests)], for the suites
    [test_suites[0 .. num_test_suites)]. *)
Definition suite_view (suite : rktest_suite_t) : string * list rktest_test_t :=
  (name suite, take (num_tests suite) (tests suite)).

Definition env_view (env : rktest_environment_t) : list (string * list rktest_test_t) :=
  suite_view <$> take (num_test_suites env) (test_suites env).

(** The tests in the order [run_all_tests] runs them. *)
Definition scheduled (env : rktest_environment_t) : list rktest_test_t :=
  concat (snd <$> env_view env).

Definition failed_view (report : rktest_report_t) : list rktest_test_t :=
  take (num_failed_tests report) (failed_tests report).

(** The array lengths and counters of an environment respect the
    capacities. *)
Definition suite_wf (suite : rktest_suite_t) : Prop :=
  length (tests suite) = RKTEST_MAX_NUM_TESTS_PER_SUITE ∧
  num_tests suite ≤ RKTEST_MAX_NUM_TESTS_PER_SUITE.

Definition env_wf (env : rktest_environment_t) : Prop :=
  length (test_suites env) = RKTEST_MAX_NUM_TEST_SUITES ∧
  num_test_suites env ≤ RKTEST_MAX_NUM_TEST_SUITES ∧
  Forall suite_wf (take (num_test_suites env) (test_suites env)).

(** ** The registry, as the specification describes it *)

(** The non-placeholder descriptors of a registry, in order. *)
Definition descriptors (reg : registry) : list rktest_test_t := omap id reg.

(** The names of a list in the order they are first seen. *)
Fixpoint first_seen (names : list string) : list string :=
  match names with
  | [] => []
  | n :: names' => n :: filter (λ m, m ≠ n) (first_seen names')
  end.

Definition tests_of (suite : string) (descs : list rktest_test_t) : list rktest_test_t :=
  filter (λ t, suite_name t = suite) descs.

(** Grouping as the specification words it: suites in first-seen order of
    their names, each with its descriptors in the order they come. *)
Definition spec_group (descs : list rktest_test_t) : list (string * list rktest_test_t) :=
  (λ n, (n, tests_of n descs)) <$> first_seen (suite_name <$> descs).

(** A registry is within the limits when its descriptors span at most
    [RKTEST_MAX_NUM_TEST_SUITES] suite names and no suite has more than
    [RKTEST_MAX_NUM_TESTS_PER_SUITE] of them. *)
Definition within_limits (reg : registry) : Prop :=
  length (first_seen (suite_name <$> descriptors reg)) ≤ RKTEST_MAX_NUM_TEST_SUITES ∧
  ∀ suite, length (tests_of suite (descriptors reg)) ≤ RKTEST_MAX_NUM_TESTS_PER_SUITE.

(** ** The builder on views *)

(** Find-or-add on the view of an environment, then append the test to
    the suite found. *)
Fixpoint insert_test (test : rktest_test_t) (g : list (string * list rktest_test_t))
    : list (string * list rktest_test_t) :=
  match g with
  | [] => [(suite_name test, [test])]
  | (n, ts) :: g' =>
      if decide (n = suite_name test) then (n, ts ++ [test]) :: g'
      else (n, ts) :: insert_test test g'
  end.

(** The tests already in the suite of [test]. *)
Fixpoint suite_tests (suite : string) (g : list (string * list rktest_test_t))
    : list rktest_test_t :=
  match g with
  | [] => []
  | (n, ts) :: g' => if decide (n = suite) then ts else suite_tests suite g'
  end.

(** What [add_test] does to the view: the two capacity checks in the
    order of the code, then the insertion. *)
Definition add_test_view (test : rktest_test_t) (g : list (string * list rktest_test_t))
    : outcome (list (string * list rktest_test_t)) :=
  if decide (length g = RKTEST_MAX_NUM_TEST_SUITES) then Exit TooManySuites
  else if decide (length (suite_tests (suite_name test) g) = RKTEST_MAX_NUM_TESTS_PER_SUITE)
       then Exit (TooManyTests (suite_name test))
       else Ok (insert_test test g).

(** ** The failure signal *)

(** How many times a test body calls [rktest_fail_current_test]. *)
Fixpoint calls (c : test_code) : nat :=
  match c with
  | Skip => 0
  | FailCurrentTest => 1
  | Seq c1 c2 => calls c1 + calls c2
  end.

(** The test marks itself failed at least once. *)
Definition signals_failure (test : rktest_test_t) : bool :=
  match func test with
  | Some c => bool_decide (0 < calls c)
  | None => false
  end.

(** The signal after the tests [ts] ran, when it was [flag] before. *)
Definition signal_after (flag : bool) (ts : list rktest_test_t) : bool :=
  match ts with
  | [] => flag
  | _ :: _ => false
  end.

(** The tests reported failed when the signal is [flag] as the first one
    starts. *)
Definition failing (flag : bool) (ts : list rktest_test_t) : list rktest_test_t :=
  match ts with
  | [] => []
  | t :: ts' =>
      (if flag || signals_failure t then [t] else []) ++ filter (λ t, signals_failure t = true) ts'
  end.


(** ** Reading the output *)

(** The [suite.test] pair a line names. *)
Definition test_id (test : rktest_test_t) : string * string :=
  (suite_name test, test_name test).

(** The tests named by the "[ RUN      ]", "[       OK ]" and
    "[  FAILED  ] %s.%s" lines of an output, in order. *)
Definition run_lines (out : list notice) : list (string * string) :=
  omap (λ n, match n with RunNotice s t => Some (s, t) | _ => None end) out.

Definition ok_lines (out : list notice) : list (string * string) :=
  omap (λ n, match n with OkNotice s t => Some (s, t) | _ => None end) out.

Definition failed_lines (out : list notice) : list (string * string) :=
  omap (λ n, match n with FailedNotice s t => Some (s, t) | _ => None end) out.

(** The count and name of the lines that open and close a suite. *)
Definition suite_lines (out : list notice) : list (nat * string) :=
  omap (λ n, match n with SuiteNotice k s => Some (k, s) | _ => None end) out.

Definition suite_done_lines (out : list notice) : list (nat * string) :=
  omap (λ n, match n with SuiteDoneNotice k s => Some (k, s) | _ => None end) out.

(** The counts of the " %zu FAILED TESTS" lines. *)
Definition failed_count_lines (out : list notice) : list nat :=
  omap (λ n, match n with FailedCountNotice k => Some k | _ => None end) out.

(** ** Facts about outcomes and loops *)

Lemma bind_Ok {A B : Type} (f : A → outcome B) (m : outcome A) (b : B) :
  m ≫= f = Ok b ↔ ∃ a, m = Ok a ∧ f a = Ok b.
Proof.
  destruct m as [a| | |]; simpl; split.
  - intros H. by exists a.
  - by intros (a' & [= <-] & H).
  - discriminate.
  - by intros (a' & [=] & _).
  - discriminate.
  - by intros (a' & [=] & _).
  - discriminate.
  - by intros (a' & [=] & _).
Qed.

Lemma foreach_app {A S : Type} (body : A → S → outcome S) (l1 l2 : list A) (s : S) :
  foreach body (l1 ++ l2) s = foreach body l1 s ≫= foreach body l2.
Proof.
  revert s. induction l1 as [|x l1 IH]; intros s; simpl; [done|].
  destruct (body x s) as [s'| | |]; simpl; [apply IH|done..].
Qed.

Lemma foreach_snoc {A S : Type} (body : A → S → outcome S) (l : list A) (x : A) (s : S) :
  foreach body (l ++ [x]) s = foreach body l s ≫= body x.
Proof.
  rewrite foreach_app. destruct (foreach body l s) as [s'| | |]; simpl; [|done..].
  by destruct (body x s').
Qed.

(** A loop reaches exactly the iterations that split its list. *)
Lemma reaches_split {A S : Type} (body : A → S → outcome S) l s x sx :
  reaches body l s x sx ↔
  ∃ l1 l2, l = l1 ++ x :: l2 ∧ foreach body l1 s = Ok sx.
Proof.
  split.
  - induction 1 as [x l s|x l s s' y sy Hx _ (l1 & l2 & -> & IH)].
    + by exists [], l.
    + exists (x :: l1), l2. split; [done|]. simpl. by rewrite Hx.
  - intros (l1 & l2 & -> & Hrun). revert s Hrun.
    induction l1 as [|z l1 IH]; intros s Hrun; simpl in *.
    + injection Hrun as ->. constructor.
    + apply bind_Ok in Hrun as (s' & Hz & Hrun).
      eapply reaches_later; eauto.
Qed.

(** ** The walk over the data section *)

Lemma deref_slot (reg : registry) (it : nat) :
  it < length reg → deref reg (S it) = reg !! it.
Proof. intros Hlt. simpl. case_decide; [lia|done]. Qed.

(** Entered strictly before the end marker, [skip_until_next_test] stops
    at the next test or at the end marker, and steps over padding only. *)
Lemma skip_until_next_test_spec (fuel : nat) (reg : registry) (it : nat) :
  it < test_data_end reg → test_data_end reg - it ≤ fuel →
  ∃ it', skip_until_next_test fuel reg it = Ok it' ∧
         it < it' ≤ test_data_end reg ∧
         descriptors (drop it reg) = descriptors (drop (it' - 1) reg) ∧
         (it' = test_data_end reg ∨ ∃ test, reg !! (it' - 1) = Some (Some test)).
Proof.
  unfold test_data_end. revert it.
  induction fuel as [|fuel IH]; intros it Hit Hfuel; [lia|].
  cbn [skip_until_next_test]. unfold test_data_end. case_decide as Hend.
  - exists (S it). split; [done|]. split; [lia|]. split; [|by left].
    by replace (S it - 1) with it by lia.
  - rewrite deref_slot by lia.
    destruct (reg !! it) as [[test|]|] eqn:Hslot.
    + exists (S it). split; [done|]. split; [lia|].
      replace (S it - 1) with it by lia. split; [done|]. right. by exists test.
    + destruct (IH (S it)) as (it' & Hskip & Hrange & Hdescs & Hstop); [lia..|].
      exists it'. split; [done|]. split; [lia|]. split; [|done].
      rewrite <- Hdescs. by rewrite (drop_S _ _ _ Hslot).
    + apply lookup_ge_None in Hslot. lia.
Qed.

(** Entered at the end marker, it steps out of the section. *)
Lemma skip_until_next_test_overrun (fuel : nat) (reg : registry) :
  skip_until_next_test (S fuel) reg (test_data_end reg) = Undefined SectionOverrun.
Proof.
  cbn [skip_until_next_test]. case_decide as Hend; [lia|].
  unfold deref, test_data_end. case_decide; [lia|].
  by rewrite lookup_ge_None_2 by lia.
Qed.

(** From a slot that holds a test, or from the end marker, the loop of
    [setup_test_env] adds the remaining descriptors in order. *)
Lemma setup_loop_foreach (fuel : nat) (reg : registry) (it : nat) (env : rktest_environment_t) :
  1 ≤ it →
  it = test_data_end reg ∨ (∃ test, reg !! (it - 1) = Some (Some test)) →
  test_data_end reg - it < fuel →
  setup_loop fuel reg it env = foreach add_test (descriptors (drop (it - 1) reg)) env.
Proof.
  revert it env. induction fuel as [|fuel IH]; intros it env Hpos Hat Hfuel; [lia|].
  cbn [setup_loop]. case_decide as Hend.
  - subst it. unfold test_data_end. replace (S (length reg) - 1) with (length reg) by lia.
    by rewrite drop_all.
  - destruct Hat as [?|[test Hslot]]; [done|].
    destruct it as [|i]; [lia|]. replace (S i - 1) with i in * by lia.
    assert (i < length reg) as Hi by (by eapply lookup_lt_Some).
    rewrite deref_slot, Hslot by done.
    rewrite (drop_S _ _ _ Hslot). unfold descriptors at 1. cbn [omap list_omap id].
    fold (descriptors (drop (S i) reg)). cbn [foreach].
    destruct (add_test test env) as [env'| | |]; simpl; [|done..].
    destruct (skip_until_next_test_spec fuel reg (S i))
      as (it' & -> & Hrange & -> & Hstop); [unfold test_data_end in *; lia..|].
    simpl. apply IH; [lia|done|lia].
Qed.

(** The first slot of the section is stepped over unread; the descriptors
    of the others are added in order. *)
Lemma setup_test_env_foreach (fuel : nat) (slot : option rktest_test_t) (reg : registry) :
  length reg < fuel →
  setup_test_env fuel (slot :: reg) = foreach add_test (descriptors reg) empty_env.
Proof.
  intros Hfuel. unfold setup_test_env.
  destruct (skip_until_next_test_spec fuel (slot :: reg) 1)
    as (it' & -> & Hrange & Hdescs & Hstop); [unfold test_data_end; simpl; lia..|].
  simpl in Hdescs. rewrite drop_0 in Hdescs. rewrite Hdescs. simpl.
  apply setup_loop_foreach; [lia|done|unfold test_data_end in *; simpl in *; lia].
Qed.

Lemma setup_test_env_empty_section (fuel : nat) :
  setup_test_env (S fuel) [] = Undefined SectionOverrun.
Proof.
  unfold setup_test_env.
  change 1 with (test_data_end (@nil (option rktest_test_t))).
  by rewrite skip_until_next_test_overrun.
Qed.

(** ** The builder refines its view *)

Lemma take_store {A : Type} (l : list A) (n : nat) (x : A) :
  n < length l → take (S n) (<[n:=x]> l) = take n l ++ [x].
Proof.
  intros Hn. rewrite (take_S_r _ _ x) by (by apply list_lookup_insert_eq).
  by rewrite take_insert_ge by lia.
Qed.

(** The suite found by the scan is the one [insert_test] appends to. *)
Lemma find_suite_view_Some (l : list rktest_suite_t) (n : string) (i : nat) (s : rktest_suite_t) :
  list_find (λ suite, name suite = n) l = Some (i, s) →
  l !! i = Some s ∧ name s = n ∧
  suite_tests n (suite_view <$> l) = snd (suite_view s) ∧
  ∀ test s', suite_name test = n →
    suite_view s' = (name s, snd (suite_view s) ++ [test]) →
    insert_test test (suite_view <$> l) = suite_view <$> <[i:=s']> l.
Proof.
  revert i. induction l as [|s0 l IH]; intros i Hfind; [done|].
  cbn [list_find] in Hfind. case_decide as Hname.
  - injection Hfind as <- <-. split; [done|]. split; [done|]. simpl.
    rewrite decide_True by done. split; [done|].
    intros test s' Htest ->. by rewrite decide_True by congruence.
  - destruct (list_find _ l) as [[j s1]|] eqn:Hl; [|done].
    injection Hfind as <- <-.
    destruct (IH j eq_refl) as (Hj & Hs & Htests & Hins).
    split; [done|]. split; [done|]. simpl.
    rewrite decide_False by done. split; [done|].
    intros test s' Htest Hview. rewrite decide_False by congruence.
    f_equal. by apply Hins.
Qed.

Lemma find_suite_view_None (l : list rktest_suite_t) (test : rktest_test_t) :
  list_find (λ suite, name suite = suite_name test) l = None →
  suite_tests (suite_name test) (suite_view <$> l) = [] ∧
  insert_test test (suite_view <$> l) = (suite_view <$> l) ++ [(suite_name test, [test])].
Proof.
  induction l as [|s0 l IH]; intros Hfind; [done|].
  cbn [list_find] in Hfind. case_decide as Hname; [done|].
  destruct (list_find _ l) as [[j s1]|] eqn:Hl; [done|].
  destruct (IH eq_refl) as [Htests Hins]. rewrite fmap_cons.
  unfold suite_view at 1 3. cbn [suite_tests insert_test].
  rewrite !decide_False by done. split; [done|]. by rewrite Hins.
Qed.

Lemma env_view_length (env : rktest_environment_t) :
  env_wf env → length (env_view env) = num_test_suites env.
Proof.
  intros (Hlen & Hnum & _). unfold env_view.
  rewrite length_fmap, length_take. lia.
Qed.

Lemma empty_env_wf : env_wf empty_env.
Proof.
  unfold env_wf, empty_env; simpl. rewrite length_replicate.
  split; [done|]. split; [lia|]. constructor.
Qed.

Lemma empty_env_view : env_view empty_env = [].
Proof. done. Qed.

(** One iteration of the builder: on an environment that respects the
    capacities, [add_test] neither reads nor writes outside an array, and
    it does to the view what [add_test_view] says. *)
Lemma add_test_refines (test : rktest_test_t) (env : rktest_environment_t) :
  env_wf env →
  match add_test test env with
  | Ok env' =>
      env_wf env' ∧
      add_test_view test (env_view env) = Ok (env_view env') ∧
      total_num_tests env' = S (total_num_tests env)
  | Exit d => add_test_view test (env_view env) = Exit d
  | Undefined _ | OutOfFuel => False
  end.
Proof.
  intros Hwf. pose proof (env_view_length env Hwf) as Hvl.
  destruct Hwf as (Hlen & Hnum & Hsuites).
  unfold add_test, add_test_view. rewrite Hvl.
  case_decide as Hfull; [done|].
  unfold find_or_add_suite, find_suite_with_name, env_view.
  destruct (list_find _ (take _ _)) as [[i s]|] eqn:Hfind; simpl.
  - (* the suite exists *)
    apply find_suite_view_Some in Hfind as (Hi & Hname & -> & Hins).
    apply lookup_take_Some in Hi as [Hi Hlt].
    pose proof (Forall_lookup_1 _ _ i s Hsuites) as [Htl Htn].
    { by apply lookup_take_Some. }
    unfold load. rewrite Hi. simpl.
    rewrite length_take_le by lia.
    case_decide as Hroom; [by rewrite Hname|].
    unfold store. rewrite decide_True by lia. simpl.
    split; [|split; [|done]].
    + unfold env_wf; simpl.
      split; [by rewrite length_insert|]. split; [done|].
      rewrite take_insert_lt by done. apply Forall_insert; [done|].
      split; simpl; [by rewrite length_insert|lia].
    + f_equal. simpl. rewrite take_insert_lt by done. apply Hins; [done|].
      unfold suite_view. simpl. by rewrite take_store by lia.
  - (* a new suite *)
    apply find_suite_view_None in Hfind as [-> Hins].
    unfold add_new_suite, store. rewrite decide_True by lia. simpl.
    unfold load. rewrite list_lookup_insert_eq by lia. simpl.
    case_decide as Hroom; [done|].
    rewrite length_replicate. rewrite decide_True by lia. simpl.
    rewrite list_insert_insert_eq.
    split; [|split; [|done]].
    + unfold env_wf; simpl.
      split; [by rewrite length_insert|]. split; [lia|].
      rewrite take_store by lia. apply Forall_app. split; [done|].
      apply Forall_singleton. split; simpl; [|lia].
      by rewrite length_insert, length_replicate.
    + f_equal. simpl. rewrite Hins, take_store by lia.
      rewrite fmap_app. f_equal. simpl. unfold suite_view. simpl.
      destruct RKTEST_MAX_NUM_TESTS_PER_SUITE; [done|]. done.
Qed.

Lemma foreach_add_test_refines (descs : list rktest_test_t) (env : rktest_environment_t) :
  env_wf env →
  match foreach add_test descs env with
  | Ok env' =>
      env_wf env' ∧
      foreach add_test_view descs (env_view env) = Ok (env_view env') ∧
      total_num_tests env' = length descs + total_num_tests env
  | Exit d => foreach add_test_view descs (env_view env) = Exit d
  | Undefined _ | OutOfFuel => False
  end.
Proof.
  revert env. induction descs as [|test descs IH]; intros env Hwf; [done|].
  cbn [foreach]. pose proof (add_test_refines test env Hwf) as Hstep.
  destruct (add_test test env) as [env1| | |]; simpl; [|by rewrite Hstep|done..].
  destruct Hstep as (Hwf1 & -> & Htotal). simpl.
  specialize (IH env1 Hwf1).
  destruct (foreach add_test descs env1) as [env2| | |]; [|done..].
  destruct IH as (Hwf2 & Hview & Htotal2). split; [done|]. split; [done|].
  simpl. lia.
Qed.

(** ** Grouping *)

Lemma foreach_add_test_view_insert descs g g' :
  foreach add_test_view descs g = Ok g' → g' = foldl (λ g test, insert_test test g) g descs.
Proof.
  revert g. induction descs as [|test descs IH]; intros g Hrun; simpl in *.
  - by injection Hrun.
  - apply bind_Ok in Hrun as (g1 & Hstep & Hrun). apply IH in Hrun as ->.
    unfold add_test_view in Hstep. repeat case_decide; try done. by injection Hstep as <-.
Qed.

Lemma first_seen_elem (names : list string) (n : string) :
  n ∈ first_seen names ↔ n ∈ names.
Proof.
  induction names as [|m names IH]; simpl; [done|].
  rewrite !elem_of_cons, list_elem_of_filter, IH.
  destruct (decide (n = m)); tauto.
Qed.

Lemma first_seen_NoDup (names : list string) : NoDup (first_seen names).
Proof.
  induction names as [|m names IH]; simpl; [constructor|].
  constructor; [|by apply NoDup_filter].
  rewrite list_elem_of_filter. by intros [? _].
Qed.

Lemma first_seen_snoc (names : list string) (n : string) :
  first_seen (names ++ [n]) =
  if decide (n ∈ names) then first_seen names else first_seen names ++ [n].
Proof.
  induction names as [|m names IH].
  - destruct (decide (n ∈ [])) as [Hin|_]; [|done]. by apply elem_of_nil in Hin.
  - cbn [app first_seen]. rewrite IH.
    destruct (decide (n ∈ names)) as [Hin|Hin];
      destruct (decide (n ∈ m :: names)) as [Hin'|Hin']; rewrite elem_of_cons in Hin'.
    + done.
    + tauto.
    + destruct Hin' as [->|]; [|done].
      rewrite filter_app, filter_cons, decide_False by (by intros []).
      by rewrite app_nil_r.
    + rewrite filter_app, filter_cons, decide_True by (intros ->; tauto). done.
Qed.

Lemma tests_of_snoc (n : string) (descs : list rktest_test_t) (test : rktest_test_t) :
  tests_of n (descs ++ [test]) =
  tests_of n descs ++ (if decide (suite_name test = n) then [test] else []).
Proof.
  unfold tests_of. rewrite filter_app, filter_cons, filter_nil.
  by destruct (decide (suite_name test = n)).
Qed.

Lemma tests_of_absent (n : string) (descs : list rktest_test_t) :
  n ∉ suite_name <$> descs → tests_of n descs = [].
Proof.
  intros Hn. unfold tests_of. induction descs as [|t descs IH]; [done|].
  rewrite fmap_cons, not_elem_of_cons in Hn. destruct Hn as [Hne Hn].
  rewrite filter_cons, decide_False by done. by apply IH.
Qed.

Lemma insert_test_grouped (names : list string) (descs : list rktest_test_t) (test : rktest_test_t) :
  NoDup names →
  insert_test test ((λ n, (n, tests_of n descs)) <$> names) =
  ((λ n, (n, tests_of n (descs ++ [test]))) <$> names) ++
  (if decide (suite_name test ∈ names) then [] else [(suite_name test, [test])]).
Proof.
  induction 1 as [|n names Hn Hnames IH].
  - destruct (decide (suite_name test ∈ [])) as [Hin|_]; [|done]. by apply elem_of_nil in Hin.
  - rewrite !fmap_cons. cbn [insert_test]. rewrite tests_of_snoc.
    destruct (decide (n = suite_name test)) as [->|Hne].
    + rewrite decide_True by done. rewrite decide_True by left.
      rewrite app_nil_r. f_equal.
      apply list_fmap_ext. intros i m Hm. f_equal.
      rewrite tests_of_snoc, decide_False, app_nil_r; [done|].
      intros <-. apply Hn. by eapply list_elem_of_lookup_2.
    + rewrite decide_False by done. rewrite app_nil_r, IH.
      destruct (decide (suite_name test ∈ names)) as [Hin|Hin];
        destruct (decide (suite_name test ∈ n :: names)) as [Hin'|Hin'];
        rewrite elem_of_cons in Hin'; [done|tauto| |done].
      by destruct Hin' as [<-|].
Qed.

(** Inserting the descriptors one by one yields the grouping of the
    specification. *)
Lemma insert_all_spec_group (descs : list rktest_test_t) :
  foldl (λ g test, insert_test test g) [] descs = spec_group descs.
Proof.
  induction descs as [|test descs IH] using rev_ind; [done|].
  rewrite foldl_snoc, IH. unfold spec_group.
  rewrite insert_test_grouped by apply first_seen_NoDup.
  rewrite (fmap_app suite_name descs [test]).
  change (suite_name <$> [test]) with [suite_name test]. rewrite first_seen_snoc.
  destruct (decide (suite_name test ∈ suite_name <$> descs)) as [Hin|Hin].
  - rewrite decide_True by (by apply first_seen_elem). by rewrite app_nil_r.
  - rewrite decide_False by (by rewrite first_seen_elem).
    rewrite fmap_app. simpl. rewrite tests_of_snoc, decide_True by done.
    by rewrite tests_of_absent.
Qed.

(** ** The failure signal *)

Lemma rktest_fail_current_test_idem (w : world) :
  rktest_fail_current_test (rktest_fail_current_test w) = rktest_fail_current_test w.
Proof. done. Qed.

(** A body that calls [rktest_fail_current_test] at all has the effect of
    one call; a body that does not has none. *)
Lemma call_calls (c : test_code) (w : world) :
  call c w = if bool_decide (0 < calls c) then rktest_fail_current_test w else w.
Proof.
  revert w. induction c as [| |c1 IH1 c2 IH2]; intros w; simpl; [done..|].
  rewrite IH1, IH2.
  destruct (calls c1) as [|n1], (calls c2) as [|n2]; simpl; try done.
  all: rewrite ?bool_decide_true by lia; done.
Qed.

Lemma run_test_passed (test : rktest_test_t) (w : world) :
  fst (run_test test w) = negb (g_current_test_failed w || signals_failure test).
Proof.
  unfold run_test, signals_failure. destruct (func test) as [c|]; simpl.
  - rewrite call_calls. destruct (bool_decide (0 < calls c)); simpl.
    + by rewrite orb_true_r.
    + by rewrite orb_false_r.
  - by rewrite orb_false_r.
Qed.

Lemma run_test_resets (test : rktest_test_t) (w : world) :
  g_current_test_failed (snd (run_test test w)) = false.
Proof. unfold run_test. simpl. by destruct (negb _). Qed.

Lemma failing_false (ts : list rktest_test_t) :
  failing false ts = filter (λ t, signals_failure t = true) ts.
Proof.
  destruct ts as [|t ts]; [done|]. unfold failing. rewrite filter_cons. simpl.
  destruct (signals_failure t); [by rewrite decide_True|by rewrite decide_False].
Qed.

Lemma failing_cons (flag : bool) (t : rktest_test_t) (ts : list rktest_test_t) :
  failing flag (t :: ts) =
  (if flag || signals_failure t then [t] else []) ++ failing false ts.
Proof. by rewrite failing_false. Qed.

Lemma failing_app (flag : bool) (ts1 ts2 : list rktest_test_t) :
  failing flag (ts1 ++ ts2) = failing flag ts1 ++ failing (signal_after flag ts1) ts2.
Proof.
  destruct ts1 as [|t ts1]; [done|]. rewrite <- app_comm_cons, !failing_cons.
  rewrite !failing_false, filter_app. simpl. by rewrite app_assoc.
Qed.

Lemma signal_after_app (flag : bool) (ts1 ts2 : list rktest_test_t) :
  signal_after flag (ts1 ++ ts2) = signal_after (signal_after flag ts1) ts2.
Proof. by destruct ts1, ts2. Qed.

Lemma failing_length (flag : bool) (ts : list rktest_test_t) :
  length (failing flag ts) ≤ length ts.
Proof.
  destruct ts as [|t ts]; [done|]. rewrite failing_cons, failing_false, length_app.
  pose proof (length_filter (λ t, signals_failure t = true) ts).
  destruct (flag || signals_failure t); simpl; lia.
Qed.

(** ** Running the tests *)

(** The inner loop of [run_all_tests]: it overflows [failed_tests] exactly
    when the failures do not fit; otherwise every test is counted as
    passed or appended to the failed ones. *)
Lemma foreach_run_and_record (ts : list rktest_test_t) (report : rktest_report_t) (w : world) :
  match foreach run_and_record ts (report, w) with
  | Ok (report', w') =>
      failed_view report' = failed_view report ++ failing (g_current_test_failed w) ts ∧
      num_failed_tests report' =
        num_failed_tests report + length (failing (g_current_test_failed w) ts) ∧
      num_passed_tests report' + length (failing (g_current_test_failed w) ts) =
        num_passed_tests report + length ts ∧
      length (failed_tests report') = length (failed_tests report) ∧
      g_current_test_failed w' = signal_after (g_current_test_failed w) ts
  | Undefined ArrayOverflow =>
      length (failed_tests report) <
        num_failed_tests report + length (failing (g_current_test_failed w) ts)
  | _ => False
  end.
Proof.
  revert report w. induction ts as [|t ts IH]; intros report w.
  - simpl. rewrite app_nil_r. repeat split; lia.
  - cbn [foreach]. unfold run_and_record at 2.
    pose proof (run_test_passed t w) as Hpassed.
    pose proof (run_test_resets t w) as Hreset.
    destruct (run_test t w) as [passed w1]. simpl in Hpassed, Hreset. subst passed.
    rewrite failing_cons.
    destruct (g_current_test_failed w || signals_failure t); simpl.
    + unfold store. case_decide as Hroom; simpl; [|lia].
      match goal with |- context [foreach _ _ (?r, _)] => specialize (IH r w1) end.
      destruct (foreach _ _ _) as [[report' w']|d|[]|]; try done; rewrite Hreset in IH; simpl in IH.
      * destruct IH as (Hview & Hfailed & Hpass & Hlen & Hsig).
        unfold failed_view in Hview at 2. simpl in Hview. rewrite take_store in Hview by done.
        rewrite length_insert in Hlen.
        rewrite Hview, Hfailed, <- app_assoc. repeat split; try done; try lia.
        by destruct ts.
      * rewrite length_insert in IH. lia.
    + specialize (IH {| num_passed_tests := S (num_passed_tests report);
                        failed_tests := failed_tests report;
                        num_failed_tests := num_failed_tests report |} w1).
      destruct (foreach _ _ _) as [[report' w']|d|[]|]; try done; rewrite Hreset in IH; simpl in IH.
      * destruct IH as (Hview & Hfailed & Hpass & Hlen & Hsig).
        repeat split; try done; try lia. by destruct ts.
      * done.
Qed.

(** The outer loop, over the suites [suites]: the same, for their tests
    taken in sequence. *)
Lemma foreach_run_suite (suites : list rktest_suite_t) (report : rktest_report_t) (w : world) :
  let ts := concat (snd <$> (suite_view <$> suites)) in
  match foreach run_suite suites (report, w) with
  | Ok (report', w') =>
      failed_view report' = failed_view report ++ failing (g_current_test_failed w) ts ∧
      num_failed_tests report' =
        num_failed_tests report + length (failing (g_current_test_failed w) ts) ∧
      num_passed_tests report' + length (failing (g_current_test_failed w) ts) =
        num_passed_tests report + length ts ∧
      length (failed_tests report') = length (failed_tests report) ∧
      g_current_test_failed w' = signal_after (g_current_test_failed w) ts
  | Undefined ArrayOverflow =>
      length (failed_tests report) <
        num_failed_tests report + length (failing (g_current_test_failed w) ts)
  | _ => False
  end.
Proof.
  cbv zeta. revert report w. induction suites as [|suite suites IH]; intros report w.
  - simpl. rewrite app_nil_r. repeat split; lia.
  - rewrite !fmap_cons. cbn [concat foreach]. unfold run_suite at 2.
    change (snd (suite_view suite)) with (take (num_tests suite) (tests suite)).
    set (ts1 := take (num_tests suite) (tests suite)).
    set (ts2 := concat (snd <$> (suite_view <$> suites))) in *.
    set (w0 := print (SuiteNotice (num_tests suite) (name suite)) w).
    pose proof (foreach_run_and_record ts1 report w0) as Hinner.
    change (g_current_test_failed w0) with (g_current_test_failed w) in Hinner.
    rewrite failing_app, signal_after_app, !length_app.
    destruct (foreach run_and_record ts1 (report, w0)) as [[report1 w1]|d|[]|];
      simpl; try done; [|lia].
    destruct Hinner as (Hview1 & Hfailed1 & Hpass1 & Hlen1 & Hsig1).
    match goal with |- context [foreach _ _ (_, ?w)] => specialize (IH report1 w) end.
    destruct (foreach run_suite suites _) as [[report' w']|d|[]|]; try done;
      simpl in IH; rewrite Hsig1 in IH.
    + destruct IH as (Hview & Hfailed & Hpass & Hlen & Hsig).
      rewrite Hview, Hview1, <- app_assoc. repeat split; try done; lia.
    + lia.
Qed.

Lemma scheduled_length (env : rktest_environment_t) :
  env_wf env → length (scheduled env) ≤ RKTEST_MAX_NUM_TESTS.
Proof.
  intros (Hlen & Hnum & Hsuites). unfold scheduled, env_view, RKTEST_MAX_NUM_TESTS.
  assert (length (take (num_test_suites env) (test_suites env)) ≤ RKTEST_MAX_NUM_TEST_SUITES)
    as Hcount by (rewrite length_take; lia).
  revert Hcount Hsuites. generalize (take (num_test_suites env) (test_suites env)).
  generalize RKTEST_MAX_NUM_TEST_SUITES. clear.
  intros n l. revert n. induction l as [|suite l IH]; intros n Hn Hl; [simpl; lia|].
  apply Forall_cons in Hl as [[Htests Hnum] Hl].
  destruct n as [|n]; cbn [length] in Hn; [lia|].
  specialize (IH n ltac:(lia) Hl).
  rewrite !fmap_cons. cbn [concat].
  change (snd (suite_view suite)) with (take (num_tests suite) (tests suite)).
  rewrite length_app, length_take, Nat.mul_succ_l. lia.
Qed.

(** A full run over an environment that respects the capacities. *)
Lemma run_all_tests_spec (env : rktest_environment_t) (w : world) :
  env_wf env →
  ∃ report w',
    run_all_tests env w = Ok (report, w') ∧
    failed_view report = failing (g_current_test_failed w) (scheduled env) ∧
    num_failed_tests report = length (failing (g_current_test_failed w) (scheduled env)) ∧
    num_passed_tests report + num_failed_tests report = length (scheduled env) ∧
    num_failed_tests report ≤ length (failed_tests report) ∧
    length (failed_tests report) = RKTEST_MAX_NUM_TESTS ∧
    g_current_test_failed w' = signal_after (g_current_test_failed w) (scheduled env).
Proof.
  intros Hwf. pose proof (scheduled_length env Hwf) as Hbound.
  pose proof (failing_length (g_current_test_failed w) (scheduled env)) as Hfail.
  unfold run_all_tests.
  pose proof (foreach_run_suite (take (num_test_suites env) (test_suites env)) empty_report w)
    as Hrun.
  fold (env_view env) in Hrun. fold (scheduled env) in Hrun. simpl in Hrun.
  rewrite length_replicate in Hrun.
  destruct (foreach run_suite _ _) as [[report w']|d|[]|]; try done; [|lia].
  destruct Hrun as (Hview & Hfailed & Hpass & Hlen & Hsig).
  exists report, w'. repeat split; try done; lia.
Qed.

(** ** What the builder maintains *)

Lemma insert_test_length_tests (test : rktest_test_t) (g : list (string * list rktest_test_t)) :
  length (concat (snd <$> insert_test test g)) = S (length (concat (snd <$> g))).
Proof.
  induction g as [|[n ts] g IH]; [done|]. cbn [insert_test].
  case_decide; rewrite !fmap_cons; cbn [concat snd]; rewrite !length_app.
  - simpl. lia.
  - rewrite IH. lia.
Qed.

(** An environment under construction: the capacities are respected and
    [total_num_tests] counts the tests of all suites. *)
Lemma add_test_invariant (test : rktest_test_t) (env : rktest_environment_t) :
  env_wf env → total_num_tests env = length (scheduled env) →
  match add_test test env with
  | Ok env' => env_wf env' ∧ total_num_tests env' = length (scheduled env')
  | Exit _ => True
  | Undefined _ | OutOfFuel => False
  end.
Proof.
  intros Hwf Htotal. pose proof (add_test_refines test env Hwf) as Hstep.
  destruct (add_test test env) as [env'| | |]; try done.
  destruct Hstep as (Hwf' & Hview & Htotal'). split; [done|].
  unfold add_test_view in Hview. repeat case_decide; try done.
  injection Hview as Hview. unfold scheduled in *.
  by rewrite <- Hview, insert_test_length_tests, Htotal', Htotal.
Qed.

Lemma skip_until_next_test_outcome (fuel : nat) (reg : registry) (it : nat) :
  skip_until_next_test fuel reg it ≠ Undefined ArrayOverflow ∧
  skip_until_next_test fuel reg it ≠ Undefined NullDescriptor.
Proof.
  revert it. induction fuel as [|fuel IH]; intros it; [done|].
  cbn [skip_until_next_test]. case_decide; [done|].
  destruct (deref reg (S it)) as [[test|]|]; [done|apply IH|done].
Qed.

(** Whatever the step bound, the loop of [setup_test_env] keeps the
    invariant and stays inside the arrays. *)
Lemma setup_loop_invariant (fuel : nat) (reg : registry) (it : nat) (env : rktest_environment_t) :
  env_wf env → total_num_tests env = length (scheduled env) →
  match setup_loop fuel reg it env with
  | Ok env' => env_wf env' ∧ total_num_tests env' = length (scheduled env')
  | Undefined ArrayOverflow => False
  | _ => True
  end.
Proof.
  revert it env. induction fuel as [|fuel IH]; intros it env Hwf Htotal; [done|].
  cbn [setup_loop]. case_decide; [done|].
  destruct (deref reg it) as [[test|]|]; [|done..].
  pose proof (add_test_invariant test env Hwf Htotal) as Hstep.
  destruct (add_test test env) as [env'| |f|]; try done. simpl.
  destruct Hstep as [Hwf' Htotal'].
  pose proof (skip_until_next_test_outcome fuel reg it) as [Hskip _].
  destruct (skip_until_next_test fuel reg it) as [it'| |[]|]; try done. simpl.
  by apply IH.
Qed.

Lemma setup_test_env_invariant (fuel : nat) (reg : registry) :
  match setup_test_env fuel reg with
  | Ok env => env_wf env ∧ total_num_tests env = length (scheduled env)
  | Undefined ArrayOverflow => False
  | _ => True
  end.
Proof.
  unfold setup_test_env.
  pose proof (skip_until_next_test_outcome fuel reg 1) as [Hskip _].
  destruct (skip_until_next_test fuel reg 1) as [it| |[]|]; try done. simpl.
  apply setup_loop_invariant; [apply empty_env_wf|done].
Qed.

(** With enough steps, the descriptors after the first slot are grouped as
    the specification says. *)
Lemma setup_test_env_spec_group (fuel : nat) (slot : option rktest_test_t) (reg : registry)
    (env : rktest_environment_t) :
  length reg < fuel →
  setup_test_env fuel (slot :: reg) = Ok env →
  env_view env = spec_group (descriptors reg) ∧
  num_test_suites env = length (first_seen (suite_name <$> descriptors reg)) ∧
  total_num_tests env = length (descriptors reg).
Proof.
  intros Hfuel Hsetup. rewrite setup_test_env_foreach in Hsetup by done.
  pose proof (foreach_add_test_refines (descriptors reg) empty_env empty_env_wf) as Hrun.
  rewrite Hsetup in Hrun. destruct Hrun as (Hwf & Hview & Htotal).
  apply foreach_add_test_view_insert in Hview. rewrite empty_env_view in Hview.
  rewrite insert_all_spec_group in Hview. split; [done|]. split.
  - rewrite <- (env_view_length env Hwf), Hview. unfold spec_group. by rewrite length_fmap.
  - simpl in Htotal. lia.
Qed.

(** A descriptor met while [num_test_suites] is at the limit ends the
    process, whether or not its suite exists already. *)
Lemma add_test_at_suite_limit (test : rktest_test_t) (env : rktest_environment_t) :
  num_test_suites env = RKTEST_MAX_NUM_TEST_SUITES → add_test test env = Exit TooManySuites.
Proof. intros Hfull. unfold add_test. by rewrite decide_True. Qed.

Lemma descriptors_snoc (reg : registry) (test : rktest_test_t) :
  descriptors (reg ++ [Some test]) = descriptors reg ++ [test].
Proof. unfold descriptors. by rewrite omap_app. Qed.

(** ** When the builder completes *)

Lemma spec_group_snoc (descs : list rktest_test_t) (test : rktest_test_t) :
  spec_group (descs ++ [test]) = insert_test test (spec_group descs).
Proof. by rewrite <- !insert_all_spec_group, foldl_snoc. Qed.

Lemma suite_tests_grouped (n : string) (names : list string) (descs : list rktest_test_t) :
  suite_tests n ((λ m, (m, tests_of m descs)) <$> names) =
  if decide (n ∈ names) then tests_of n descs else [].
Proof.
  induction names as [|m names IH].
  - destruct (decide (n ∈ [])) as [Hin|_]; [|done]. by apply elem_of_nil in Hin.
  - rewrite fmap_cons. cbn [suite_tests]. destruct (decide (m = n)) as [->|Hne].
    + by rewrite decide_True by left.
    + rewrite IH. destruct (decide (n ∈ names)) as [Hin|Hin];
        destruct (decide (n ∈ m :: names)) as [Hin'|Hin'];
        rewrite elem_of_cons in Hin'; [done|tauto| |done].
      by destruct Hin' as [->|].
Qed.

Lemma suite_tests_spec_group (n : string) (descs : list rktest_test_t) :
  suite_tests n (spec_group descs) = tests_of n descs.
Proof.
  unfold spec_group. rewrite suite_tests_grouped.
  destruct (decide (n ∈ first_seen (suite_name <$> descs))) as [|Hin]; [done|].
  rewrite first_seen_elem in Hin. by rewrite tests_of_absent.
Qed.

Lemma first_seen_length_snoc (names : list string) (n : string) :
  length (first_seen names) ≤ length (first_seen (names ++ [n])).
Proof. rewrite first_seen_snoc. case_decide; [done|]. rewrite length_app. lia. Qed.

(** The builder completes on descriptors that leave one suite of slack
    and fit the suites. *)
Lemma foreach_add_test_view_completes (descs : list rktest_test_t) :
  length (first_seen (suite_name <$> descs)) < RKTEST_MAX_NUM_TEST_SUITES →
  (∀ n, length (tests_of n descs) ≤ RKTEST_MAX_NUM_TESTS_PER_SUITE) →
  foreach add_test_view descs [] = Ok (spec_group descs).
Proof.
  induction descs as [|test descs IH] using rev_ind; intros Hsuites Htests; [done|].
  rewrite fmap_app in Hsuites. change (suite_name <$> [test]) with [suite_name test] in Hsuites.
  pose proof (first_seen_length_snoc (suite_name <$> descs) (suite_name test)) as Hmono.
  rewrite foreach_snoc, IH; [|lia|].
  - simpl. unfold add_test_view.
    rewrite decide_False by (unfold spec_group; rewrite length_fmap; lia).
    rewrite suite_tests_spec_group.
    specialize (Htests (suite_name test)).
    rewrite tests_of_snoc, decide_True, length_app in Htests by done. simpl in Htests.
    rewrite decide_False by lia. by rewrite spec_group_snoc.
  - intros n. specialize (Htests n). rewrite tests_of_snoc, length_app in Htests. lia.
Qed.

Lemma spec_group_length (descs : list rktest_test_t) :
  length (spec_group descs) = length (first_seen (suite_name <$> descs)).
Proof. unfold spec_group. by rewrite length_fmap. Qed.

(** Exactly when the builder completes: at every descriptor, the suites
    created so far are not yet [RKTEST_MAX_NUM_TEST_SUITES], and the suite
    of the descriptor does not hold [RKTEST_MAX_NUM_TESTS_PER_SUITE] tests
    yet. *)
Lemma foreach_add_test_view_exact (descs : list rktest_test_t) :
  foreach add_test_view descs [] = Ok (spec_group descs) ↔
  ∀ i test, descs !! i = Some test →
    length (first_seen (suite_name <$> take i descs)) ≠ RKTEST_MAX_NUM_TEST_SUITES ∧
    length (tests_of (suite_name test) (take i descs)) ≠ RKTEST_MAX_NUM_TESTS_PER_SUITE.
Proof.
  induction descs as [|test descs IH] using rev_ind.
  - split; [|done]. by intros _ i test' ?.
  - rewrite foreach_snoc. split.
    + intros Hrun. apply bind_Ok in Hrun as (g & Hpre & Hlast).
      pose proof Hpre as Hg. apply foreach_add_test_view_insert in Hg.
      rewrite insert_all_spec_group in Hg. subst g.
      intros i test' Hi. destruct (decide (i < length descs)) as [Hlt|Hge].
      * rewrite lookup_app_l in Hi by done. rewrite take_app_le by lia.
        by apply IH.
      * apply lookup_lt_Some in Hi as Hlen. rewrite length_app in Hlen. simpl in Hlen.
        assert (i = length descs) as -> by lia.
        rewrite list_lookup_middle in Hi by done. injection Hi as <-.
        rewrite take_app_length. unfold add_test_view in Hlast.
        rewrite suite_tests_spec_group in Hlast.
        rewrite spec_group_length in Hlast.
        by repeat case_decide.
    + intros Hall.
      assert (foreach add_test_view descs [] = Ok (spec_group descs)) as ->.
      { apply IH. intros i test' Hi. apply lookup_lt_Some in Hi as Hlt.
        specialize (Hall i test'). rewrite lookup_app_l, take_app_le in Hall by lia.
        by apply Hall. }
      simpl. specialize (Hall (length descs) test).
      rewrite list_lookup_middle, take_app_length in Hall by done.
      destruct (Hall eq_refl) as [Hsuites Htests].
      unfold add_test_view. rewrite suite_tests_spec_group.
      rewrite spec_group_length.
      rewrite !decide_False by done. by rewrite spec_group_snoc.
Qed.

Lemma setup_test_env_completes (fuel : nat) (slot : option rktest_test_t) (reg : registry) :
  length reg < fuel →
  length (first_seen (suite_name <$> descriptors reg)) < RKTEST_MAX_NUM_TEST_SUITES →
  (∀ n, length (tests_of n (descriptors reg)) ≤ RKTEST_MAX_NUM_TESTS_PER_SUITE) →
  ∃ env, setup_test_env fuel (slot :: reg) = Ok env ∧
         env_view env = spec_group (descriptors reg) ∧
         total_num_tests env = length (descriptors reg).
Proof.
  intros Hfuel Hsuites Htests. rewrite setup_test_env_foreach by done.
  pose proof (foreach_add_test_refines (descriptors reg) empty_env empty_env_wf) as Hrun.
  rewrite empty_env_view, foreach_add_test_view_completes in Hrun by done.
  destruct (foreach add_test _ _) as [env| | |]; try done.
  destruct Hrun as (_ & [= Hview] & Htotal). exists env. split; [done|]. split; [done|].
  simpl in Htotal. lia.
Qed.

(** The environment is built exactly when no descriptor after the first
    slot is met with the suite count at its limit or with its suite
    full; otherwise the process exits. *)
Lemma setup_test_env_exact (fuel : nat) (slot : option rktest_test_t) (reg : registry) :
  length reg < fuel →
  (∃ env, setup_test_env fuel (slot :: reg) = Ok env) ↔
  ∀ i test, descriptors reg !! i = Some test →
    length (first_seen (suite_name <$> take i (descriptors reg))) ≠
      RKTEST_MAX_NUM_TEST_SUITES ∧
    length (tests_of (suite_name test) (take i (descriptors reg))) ≠
      RKTEST_MAX_NUM_TESTS_PER_SUITE.
Proof.
  intros Hfuel. rewrite setup_test_env_foreach by done.
  pose proof (foreach_add_test_refines (descriptors reg) empty_env empty_env_wf) as Hrun.
  rewrite empty_env_view in Hrun. rewrite <- foreach_add_test_view_exact. split.
  - intros [env Henv]. rewrite Henv in Hrun. destruct Hrun as (_ & Hview & _).
    rewrite Hview. f_equal. apply foreach_add_test_view_insert in Hview.
    by rewrite insert_all_spec_group in Hview.
  - intros Hview. rewrite Hview in Hrun.
    destruct (foreach add_test _ _) as [env| | |]; try done. by exists env.
Qed.

(** An environment is built only from descriptors within both limits. *)
Lemma setup_test_env_built_within (fuel : nat) (slot : option rktest_test_t) (reg : registry)
    (env : rktest_environment_t) :
  length reg < fuel →
  setup_test_env fuel (slot :: reg) = Ok env →
  length (first_seen (suite_name <$> descriptors reg)) ≤ RKTEST_MAX_NUM_TEST_SUITES ∧
  ∀ n, length (tests_of n (descriptors reg)) ≤ RKTEST_MAX_NUM_TESTS_PER_SUITE.
Proof.
  intros Hfuel Hsetup.
  destruct (setup_test_env_spec_group fuel slot reg env Hfuel Hsetup) as (Hview & Hnum & _).
  pose proof (setup_test_env_invariant fuel (slot :: reg)) as Hinv.
  rewrite Hsetup in Hinv. destruct Hinv as [(Hlen & Hle & Hsuites) _].
  split; [lia|]. intros n.
  destruct (decide (n ∈ first_seen (suite_name <$> descriptors reg))) as [Hin|Hin].
  - assert ((n, tests_of n (descriptors reg)) ∈ env_view env) as Hgroup.
    { rewrite Hview. unfold spec_group. apply list_elem_of_fmap. by exists n. }
    unfold env_view in Hgroup. apply list_elem_of_fmap in Hgroup as (suite & Heq & Hsuite).
    rewrite Forall_forall in Hsuites. destruct (Hsuites suite Hsuite) as [Htl Htn].
    injection Heq as _ ->. rewrite length_take. lia.
  - rewrite first_seen_elem in Hin. rewrite tests_of_absent by done. simpl. lia.
Qed.

(** When the builder exits, [rktest_main] runs no test and builds no
    report. *)
Lemma rktest_main_exit (fuel : nat) (reg : registry) (w : world) (d : diagnostic) :
  setup_test_env fuel reg = Exit d →
  rktest_main_report fuel reg w = Exit d ∧ rktest_main fuel reg w = Exit d.
Proof. intros Hsetup. unfold rktest_main, rktest_main_report. by rewrite Hsetup. Qed.

(** ** The capacity checks (C1) *)

(** C1.  The builder does not exit only when a limit would be exceeded:
    once an environment holds exactly [RKTEST_MAX_NUM_TEST_SUITES] suites,
    one more descriptor ends the process with the suite-limit diagnostic,
    also when the registry stays within both limits because the
    descriptor belongs to a suite that exists already. *)
Theorem setup_test_env_exits_within_limits (fuel : nat) (slot : option rktest_test_t)
    (reg : registry) (env : rktest_environment_t) (test : rktest_test_t) :
  length reg < fuel →
  setup_test_env fuel (slot :: reg) = Ok env →
  num_test_suites env = RKTEST_MAX_NUM_TEST_SUITES →
  within_limits (slot :: reg ++ [Some test]) →
  setup_test_env (S fuel) (slot :: reg ++ [Some test]) = Exit TooManySuites.
Proof.
  intros Hfuel Hsetup Hfull _.
  rewrite setup_test_env_foreach in Hsetup by done.
  rewrite setup_test_env_foreach by (rewrite length_app; simpl; lia).
  rewrite descriptors_snoc, foreach_snoc, Hsetup. simpl.
  by apply add_test_at_suite_limit.
Qed.

(** ** The first slot of the section (C2, C3) *)

(** C2.  The counts of the built environment are not those of the
    registry: the slot next to [test_data_begin] is never read, so a
    registry holding one descriptor there yields an environment with no
    test and no suite, and in general the content of that slot does not
    change what is built. *)
Theorem setup_test_env_skips_first_slot :
  (∀ (fuel : nat) (test : rktest_test_t),
     length (descriptors [Some test]) = 1 ∧
     ∃ env, setup_test_env (S fuel) [Some test] = Ok env ∧
            total_num_tests env = 0 ∧ num_test_suites env = 0) ∧
  (∀ (fuel : nat) (slot slot' : option rktest_test_t) (reg : registry),
     setup_test_env (S (length reg + fuel)) (slot :: reg) =
     setup_test_env (S (length reg + fuel)) (slot' :: reg)).
Proof.
  split.
  - intros fuel test. split; [done|]. exists empty_env.
    by rewrite setup_test_env_foreach by (simpl; lia).
  - intros fuel slot slot' reg. by rewrite !setup_test_env_foreach by lia.
Qed.

(** C3.  Registering (A,t1), (B,t1), (A,t2) in that order, with no padding
    after [test_data_begin], does not yield [A{t1, t2}, B{t1}]: the first
    descriptor is stepped over, and the suites come out as
    [B{t1}, A{t2}]. *)
Theorem setup_test_env_example_order (fuel : nat) :
  2 ≤ RKTEST_MAX_NUM_TEST_SUITES → 1 ≤ RKTEST_MAX_NUM_TESTS_PER_SUITE → 2 < fuel →
  ∃ env, setup_test_env fuel [Some A_t1; Some B_t1; Some A_t2] = Ok env ∧
         env_view env = [("B", [B_t1]); ("A", [A_t2])] ∧
         spec_group (descriptors [Some A_t1; Some B_t1; Some A_t2]) =
           [("A", [A_t1; A_t2]); ("B", [B_t1])].
Proof.
  intros HS HT Hfuel. rewrite setup_test_env_foreach by (simpl; lia).
  pose proof (foreach_add_test_refines [B_t1; A_t2] empty_env empty_env_wf) as Hrun.
  change (descriptors [Some B_t1; Some A_t2]) with [B_t1; A_t2].
  assert (foreach add_test_view [B_t1; A_t2] [] = Ok [("B", [B_t1]); ("A", [A_t2])]) as Hview.
  { cbn [foreach]. unfold add_test_view at 2. simpl.
    rewrite !decide_False by lia. simpl.
    unfold add_test_view. simpl. by rewrite !decide_False by lia. }
  rewrite empty_env_view, Hview in Hrun.
  destruct (foreach add_test _ _) as [env| | |]; try done.
  destruct Hrun as (_ & [= Henv] & _). by exists env.
Qed.

(** ** The report (C4, C5) *)

Lemma failing_sublist (flag : bool) (ts : list rktest_test_t) :
  failing flag ts `sublist_of` ts.
Proof.
  destruct ts as [|t ts]; [done|]. rewrite failing_cons, failing_false.
  destruct (flag || signals_failure t); simpl.
  - apply sublist_skip, sublist_filter.
  - apply sublist_cons, sublist_filter.
Qed.

(** C4.  Each test outcome increments [num_passed_tests] on a pass and
    appends the descriptor to [failed_tests] otherwise; so a full run over
    a built environment returns a report in which
    [num_passed_tests + num_failed_tests] is [total_num_tests], and the
    failed tests are those for which [run_test] returned false, in the
    order they ran. *)
Theorem run_all_tests_accounts :
  (∀ (test : rktest_test_t) (report : rktest_report_t) (w : world),
     num_failed_tests report < length (failed_tests report) →
     ∃ report',
       run_and_record test (report, w) = Ok (report', snd (run_test test w)) ∧
       if fst (run_test test w)
       then num_passed_tests report' = S (num_passed_tests report) ∧
            num_failed_tests report' = num_failed_tests report ∧
            failed_view report' = failed_view report
       else num_passed_tests report' = num_passed_tests report ∧
            num_failed_tests report' = S (num_failed_tests report) ∧
            failed_view report' = failed_view report ++ [test]) ∧
  (∀ (fuel : nat) (reg : registry) (env : rktest_environment_t) (w : world),
     setup_test_env fuel reg = Ok env →
     ∃ report w',
       run_all_tests env w = Ok (report, w') ∧
       num_passed_tests report + num_failed_tests report = total_num_tests env ∧
       failed_view report = failing (g_current_test_failed w) (scheduled env) ∧
       failed_view report `sublist_of` scheduled env ∧
       num_passed_tests report =
         length (scheduled env) -
         length (failing (g_current_test_failed w) (scheduled env))).
Proof.
  split.
  - intros test report w Hroom. unfold run_and_record.
    destruct (run_test test w) as [[] w1]; simpl.
    + by eexists.
    + unfold store. rewrite decide_True by done. simpl. eexists. split; [done|]. simpl.
      split; [done|]. split; [done|]. unfold failed_view. simpl. by apply take_store.
  - intros fuel reg env w Hsetup. pose proof (setup_test_env_invariant fuel reg) as Hinv.
    rewrite Hsetup in Hinv. destruct Hinv as [Hwf Htotal].
    destruct (run_all_tests_spec env w Hwf)
      as (report & w' & Hrun & Hview & Hfailed & Hsum & _).
    exists report, w'. split; [done|]. split; [lia|]. split; [done|]. split.
    + rewrite Hview. apply failing_sublist.
    + lia.
Qed.

(** C5.  Whenever the environment is built, [rktest_main] returns, and its
    status is 1 when [num_failed_tests] is 0 and 0 otherwise; no failed
    test means that every test of the environment was counted as
    passed. *)
Theorem rktest_main_status (fuel : nat) (reg : registry) (env : rktest_environment_t)
    (w : world) :
  setup_test_env fuel reg = Ok env →
  ∃ status report w',
    rktest_main_report fuel reg w = Ok (status, report, w') ∧
    rktest_main fuel reg w = Ok (status, w') ∧
    (status = 1%Z ∨ status = 0%Z) ∧
    (status ≠ 0%Z ↔ num_failed_tests report = 0) ∧
    (num_failed_tests report = 0 ↔ num_passed_tests report = total_num_tests env) ∧
    (num_failed_tests report = 0 ↔
     failing (g_current_test_failed w) (scheduled env) = []).
Proof.
  intros Hsetup. pose proof (setup_test_env_invariant fuel reg) as Hinv.
  rewrite Hsetup in Hinv. destruct Hinv as [Hwf Htotal].
  unfold rktest_main, rktest_main_report. rewrite Hsetup. simpl.
  match goal with |- context [run_all_tests env ?w0] =>
    destruct (run_all_tests_spec env w0 Hwf)
      as (report & w' & -> & Hview & Hfailed & Hsum & _)
  end.
  simpl in Hview, Hfailed. simpl.
  eexists _, report, _. split; [done|]. split; [done|].
  split; [|split; [|split]].
  - case_bool_decide; [by left|by right].
  - case_bool_decide; simpl; split; intros; try done; lia.
  - lia.
  - rewrite Hfailed. split; [apply nil_length_inv|by intros ->].
Qed.

(** ** The failure signal (C6, C7, C8) *)

(** C6.  Pass or fail is boolean: started with the signal clear, a test is
    reported failed exactly when its body calls
    [rktest_fail_current_test] at least once, and a body that calls it
    several times leaves the same verdict and the same state as one that
    calls it once. *)
Theorem fail_current_test_boolean (test : rktest_test_t) (w : world) :
  g_current_test_failed w = false →
  (fst (run_test test w) = false ↔ ∃ c, func test = Some c ∧ 0 < calls c) ∧
  (fst (run_test test w) = true ↔ ∀ c, func test = Some c → calls c = 0) ∧
  (∀ c, func test = Some c → 0 < calls c →
     call c w = rktest_fail_current_test w ∧
     run_test test w =
     run_test {| suite_name := suite_name test;
                 test_name := test_name test;
                 func := Some FailCurrentTest |} w).
Proof.
  intros Hclear. rewrite run_test_passed, Hclear. unfold signals_failure. simpl.
  split; [|split].
  - destruct (func test) as [c|]; simpl.
    + case_bool_decide; simpl; split; try done.
      * intros _. by exists c.
      * intros (c' & [= <-] & ?). lia.
    + split; [done|]. by intros (c' & [=] & _).
  - destruct (func test) as [c|]; simpl.
    + case_bool_decide; simpl; split; try done.
      * intros Hc. specialize (Hc c eq_refl). lia.
      * intros _ c' [= <-]. lia.
    + done.
  - intros c Hfunc Hcalls.
    assert (call c w = rktest_fail_current_test w) as Hcall.
    { by rewrite call_calls, bool_decide_true. }
    split; [done|]. unfold run_test. rewrite Hfunc. simpl.
    by rewrite call_calls, bool_decide_true.
Qed.

(** C7.  A test without a function is a pass: started with the signal
    clear, [run_test] returns true for it, and the loop of [run_all_tests]
    counts it in [num_passed_tests] and leaves the failed tests as they
    are; in a run started with the signal clear, no such test is among the
    failed ones. *)
Theorem null_func_passes :
  (∀ (test : rktest_test_t) (report : rktest_report_t) (w : world),
     func test = None →
     g_current_test_failed w = false →
     fst (run_test test w) = true ∧
     run_and_record test (report, w) =
       Ok ({| num_passed_tests := S (num_passed_tests report);
              failed_tests := failed_tests report;
              num_failed_tests := num_failed_tests report |},
           snd (run_test test w))) ∧
  (∀ (fuel : nat) (reg : registry) (env : rktest_environment_t) (w w' : world)
     (report : rktest_report_t) (test : rktest_test_t),
     setup_test_env fuel reg = Ok env →
     g_current_test_failed w = false →
     run_all_tests env w = Ok (report, w') →
     func test = None →
     test ∉ failed_view report).
Proof.
  split.
  - intros test report w Hfunc Hclear.
    assert (fst (run_test test w) = true) as Hpassed.
    { rewrite run_test_passed, Hclear. unfold signals_failure. by rewrite Hfunc. }
    split; [done|]. unfold run_and_record.
    destruct (run_test test w) as [passed w1]. simpl in *. by subst passed.
  - intros fuel reg env w w' report test Hsetup Hclear Hrun Hfunc.
    pose proof (setup_test_env_invariant fuel reg) as Hinv.
    rewrite Hsetup in Hinv. destruct Hinv as [Hwf _].
    destruct (run_all_tests_spec env w Hwf) as (report0 & w0 & Hrun0 & Hview & _).
    rewrite Hrun in Hrun0. injection Hrun0 as <- <-.
    rewrite Hview, Hclear, failing_false, list_elem_of_filter.
    intros [Hsignals _]. unfold signals_failure in Hsignals. by rewrite Hfunc in Hsignals.
Qed.

Lemma reaches_run_and_record_signal ts report w t report2 w2 :
  reaches run_and_record ts (report, w) t (report2, w2) →
  g_current_test_failed w = false → g_current_test_failed w2 = false.
Proof.
  intros (ts1 & ts2 & -> & Hrun)%reaches_split Hclear.
  pose proof (foreach_run_and_record ts1 report w) as Hspec.
  rewrite Hrun in Hspec. destruct Hspec as (_ & _ & _ & _ & ->).
  rewrite Hclear. by destruct ts1.
Qed.

Lemma reaches_run_suite_signal suites report w suite report1 w1 :
  reaches run_suite suites (report, w) suite (report1, w1) →
  g_current_test_failed w = false → g_current_test_failed w1 = false.
Proof.
  intros (ss1 & ss2 & -> & Hrun)%reaches_split Hclear.
  pose proof (foreach_run_suite ss1 report w) as Hspec.
  rewrite Hrun in Hspec. destruct Hspec as (_ & _ & _ & _ & ->).
  rewrite Hclear. by destruct (concat _).
Qed.

(** C8.  In a run started with the signal clear, as it is when the process
    starts, the signal is clear whenever [run_all_tests] comes to call
    [run_test]; [run_test] always leaves it clear; the tests reported
    failed are those that signalled failure themselves; and the signal is
    clear when the run ends, so the next run starts as this one did. *)
Theorem failure_signal_scoped (env : rktest_environment_t) (w : world) :
  g_current_test_failed initial_world = false ∧
  (∀ test w0, g_current_test_failed (snd (run_test test w0)) = false) ∧
  (g_current_test_failed w = false →
   (∀ suite report1 w1 test report2 w2,
      reaches run_suite (take (num_test_suites env) (test_suites env))
        (empty_report, w) suite (report1, w1) →
      reaches run_and_record (take (num_tests suite) (tests suite))
        (report1, print (SuiteNotice (num_tests suite) (name suite)) w1)
        test (report2, w2) →
      g_current_test_failed w2 = false) ∧
   (∀ report w', run_all_tests env w = Ok (report, w') →
      g_current_test_failed w' = false ∧
      failed_view report = filter (λ t, signals_failure t = true) (scheduled env))).
Proof.
  split; [done|]. split; [apply run_test_resets|]. intros Hclear. split.
  - intros suite report1 w1 test report2 w2 Hsuite Htest.
    eapply reaches_run_and_record_signal; [done|]. simpl.
    by eapply reaches_run_suite_signal.
  - intros report w' Hrun. unfold run_all_tests in Hrun.
    pose proof (foreach_run_suite (take (num_test_suites env) (test_suites env))
                  empty_report w) as Hspec.
    rewrite Hrun in Hspec. destruct Hspec as (Hview & _ & _ & _ & ->).
    rewrite Hclear in *. split; [by destruct (concat _)|].
    by rewrite Hview, failing_false.
Qed.

(** ** Array bounds (C9) *)

(** C9.  No access leaves a fixed-capacity array: building never writes
    outside [test_suites] or a suite's [tests], the environment it returns
    respects both capacities and holds at most [RKTEST_MAX_NUM_TESTS]
    tests, and a run over it never writes outside [failed_tests], whose
    counter stays within [RKTEST_MAX_NUM_TESTS]. *)
Theorem arrays_stay_in_bounds (fuel : nat) (reg : registry) :
  setup_test_env fuel reg ≠ Undefined ArrayOverflow ∧
  (∀ test env, env_wf env → add_test test env ≠ Undefined ArrayOverflow) ∧
  (∀ env w, setup_test_env fuel reg = Ok env →
     env_wf env ∧
     total_num_tests env ≤ RKTEST_MAX_NUM_TESTS ∧
     ∃ report w',
       run_all_tests env w = Ok (report, w') ∧
       length (failed_tests report) = RKTEST_MAX_NUM_TESTS ∧
       num_failed_tests report ≤ RKTEST_MAX_NUM_TESTS).
Proof.
  pose proof (setup_test_env_invariant fuel reg) as Hinv. split; [|split].
  - intros Hsetup. by rewrite Hsetup in Hinv.
  - intros test env Hwf Hadd. pose proof (add_test_refines test env Hwf) as Hstep.
    by rewrite Hadd in Hstep.
  - intros env w Hsetup. rewrite Hsetup in Hinv. destruct Hinv as [Hwf Htotal].
    split; [done|]. split.
    + rewrite Htotal. by apply scheduled_length.
    + destruct (run_all_tests_spec env w Hwf)
        as (report & w' & Hrun & _ & _ & _ & Hfit & Hlen & _).
      exists report, w'. split; [done|]. split; [done|]. lia.
Qed.

(** ** Termination of the walk (C10) *)

(** C10.  The walk does not end for every section: entered at the end
    marker, [skip_until_next_test] steps past it, and this is how
    [setup_test_env] enters it when no slot lies between the two markers;
    the walk then leaves the section instead of reaching its end.  With at
    least one slot between the markers it ends, in an environment or in
    [exit(1)]. *)
Theorem setup_test_env_walk :
  (∀ (fuel : nat) (reg : registry),
     skip_until_next_test (S fuel) reg (test_data_end reg) = Undefined SectionOverrun) ∧
  (∀ fuel : nat, setup_test_env (S fuel) [] = Undefined SectionOverrun) ∧
  (∀ (fuel : nat) (slot : option rktest_test_t) (reg : registry),
     match setup_test_env (S (length reg + fuel)) (slot :: reg) with
     | Ok _ | Exit _ => True
     | Undefined _ | OutOfFuel => False
     end).
Proof.
  split; [|split].
  - intros fuel reg. apply skip_until_next_test_overrun.
  - apply setup_test_env_empty_section.
  - intros fuel slot reg. rewrite setup_test_env_foreach by lia.
    pose proof (foreach_add_test_refines (descriptors reg) empty_env empty_env_wf) as Hrun.
    by destruct (foreach add_test _ _).
Qed.

(** ** Further properties of the walk *)

(** Entered before the end marker, [skip_until_next_test] returns the
    first position after [it] that holds a test, or the end marker when
    there is none: every slot it steps over is padding. *)
Theorem skip_until_next_test_first_test (fuel : nat) (reg : registry) (it : nat) :
  it < test_data_end reg → test_data_end reg - it ≤ fuel →
  ∃ it', skip_until_next_test fuel reg it = Ok it' ∧
         it < it' ≤ test_data_end reg ∧
         (∀ j, it < j < it' → deref reg j = Some None) ∧
         (it' = test_data_end reg ∨ ∃ test, deref reg it' = Some (Some test)).
Proof.
  unfold test_data_end. revert it.
  induction fuel as [|fuel IH]; intros it Hit Hfuel; [lia|].
  cbn [skip_until_next_test]. unfold test_data_end. case_decide as Hend.
  - exists (S it). split; [done|]. split; [lia|]. split; [intros j ?; lia|by left].
  - destruct (deref reg (S it)) as [[test|]|] eqn:Hslot.
    + exists (S it). split; [done|]. split; [lia|]. split; [intros j ?; lia|].
      right. by exists test.
    + destruct (IH (S it)) as (it' & Hskip & Hrange & Hpad & Hstop); [lia..|].
      exists it'. split; [done|]. split; [lia|]. split; [|done].
      intros j Hj. destruct (decide (j = S it)) as [->|]; [done|]. apply Hpad. lia.
    + rewrite deref_slot in Hslot by lia. apply lookup_ge_None in Hslot. lia.
Qed.

(** Padding after the first slot, and the step bound once it exceeds the
    length of the section, do not change what [setup_test_env] returns: two
    sections with the same descriptors after their first slot build the same
    environment or end in the same [exit(1)]. *)
Theorem setup_test_env_padding (fuel fuel' : nat) (slot slot' : option rktest_test_t)
    (reg reg' : registry) :
  length reg < fuel → length reg' < fuel' →
  descriptors reg = descriptors reg' →
  setup_test_env fuel (slot :: reg) = setup_test_env fuel' (slot' :: reg').
Proof.
  intros Hfuel Hfuel' Hdescs. rewrite !setup_test_env_foreach by done. by rewrite Hdescs.
Qed.

(** ** Looking suites up *)

Lemma find_suite_with_name_snoc (l : list rktest_suite_t) (s : rktest_suite_t) (n : string) :
  fst <$> list_find (λ suite, name suite = n) (l ++ [s]) =
  match fst <$> list_find (λ suite, name suite = n) l with
  | Some i => Some i
  | None => if decide (name s = n) then Some (length l) else None
  end.
Proof.
  destruct (list_find _ l) as [[i y]|] eqn:Hfind.
  - by rewrite (list_find_app_l _ _ _ _ _ Hfind).
  - rewrite list_find_app_r by done. cbn [list_find]. by case_decide.
Qed.

(** [find_suite_with_name] returns the first of the suites
    [suites[0 .. num_suites)] that bears the name, and [NULL] exactly when
    none of them does; what the array holds from [num_suites] on is not
    looked at. *)
Theorem find_suite_with_name_first (suites : list rktest_suite_t) (num_suites : nat)
    (n : string) :
  (∀ i, find_suite_with_name suites num_suites n = Some i ↔
        i < num_suites ∧
        (∃ suite, suites !! i = Some suite ∧ name suite = n) ∧
        ∀ j suite, j < i → suites !! j = Some suite → name suite ≠ n) ∧
  (find_suite_with_name suites num_suites n = None ↔
   ∀ j suite, j < num_suites → suites !! j = Some suite → name suite ≠ n).
Proof.
  unfold find_suite_with_name. split.
  - intros i. rewrite fmap_Some. split.
    + intros ([j suite] & Hfind & ->). simpl.
      apply list_find_Some in Hfind as (Hj & Hname & Hfirst).
      apply lookup_take_Some in Hj as [Hj Hlt]. split; [done|]. split; [by exists suite|].
      intros k suite' Hk Hsuite'. apply (Hfirst k suite'); [|done].
      apply lookup_take_Some. split; [done|lia].
    + intros (Hlt & (suite & Hi & Hname) & Hfirst). exists (i, suite). split; [|done].
      apply list_find_Some. split; [by apply lookup_take_Some|]. split; [done|].
      intros j suite' [Hj _]%lookup_take_Some Hji. by apply (Hfirst j).
  - rewrite fmap_None, list_find_None, Forall_forall. split.
    + intros Hnone j suite Hj Hsuite. apply Hnone.
      apply list_elem_of_lookup. exists j. by apply lookup_take_Some.
    + intros Hnone suite [j [Hj Hlt]%lookup_take_Some]%list_elem_of_lookup.
      by apply (Hnone j).
Qed.

(** What [find_or_add_suite] returns can be found again: the suite it
    returns is the one [find_suite_with_name] finds afterwards, asking again
    changes nothing, the other names are found as before, and at most one
    suite was added. *)
Theorem find_or_add_suite_found (env env' : rktest_environment_t) (n : string) (i : nat) :
  find_or_add_suite env n = Ok (env', i) →
  find_suite_with_name (test_suites env') (num_test_suites env') n = Some i ∧
  find_or_add_suite env' n = Ok (env', i) ∧
  (∀ m, m ≠ n →
     find_suite_with_name (test_suites env') (num_test_suites env') m =
     find_suite_with_name (test_suites env) (num_test_suites env) m) ∧
  total_num_tests env' = total_num_tests env ∧
  (env' = env ∨ num_test_suites env' = S (num_test_suites env) ∧ i = num_test_suites env).
Proof.
  unfold find_or_add_suite.
  destruct (find_suite_with_name _ _ n) as [j|] eqn:Hfind.
  - intros [= <- <-]. rewrite Hfind. repeat split; auto.
  - unfold add_new_suite, store. case_decide as Hroom; [|done]. simpl.
    intros [= <- <-]. simpl. unfold find_suite_with_name in *.
    rewrite take_store by done.
    assert (length (take (num_test_suites env) (test_suites env)) = num_test_suites env)
      as Hlen by (rewrite length_take; lia).
    assert (fst <$> list_find (λ suite, name suite = n)
              (take (num_test_suites env) (test_suites env) ++
               [{| name := n;
                   tests := replicate RKTEST_MAX_NUM_TESTS_PER_SUITE zero_test;
                   num_tests := 0 |}]) = Some (num_test_suites env)) as Hnew.
    { rewrite find_suite_with_name_snoc, Hfind. simpl.
      by rewrite decide_True, Hlen by done. }
    rewrite Hnew. split; [done|]. split; [done|]. split; [|by auto].
    intros m Hm. rewrite find_suite_with_name_snoc.
    destruct (fst <$> list_find (λ suite, name suite = m) _); [done|].
    simpl. rewrite decide_False; [done|]. by intros ->.
Qed.

(** [find_or_add_suite] has no capacity check of its own: on an
    environment that respects the capacities it writes outside
    [test_suites] exactly when the environment is full and the name is
    new; a name that exists is found also in a full environment. *)
Theorem find_or_add_suite_overflow (env : rktest_environment_t) (n : string) :
  env_wf env →
  (find_or_add_suite env n = Undefined ArrayOverflow ↔
   num_test_suites env = RKTEST_MAX_NUM_TEST_SUITES ∧
   find_suite_with_name (test_suites env) (num_test_suites env) n = None) ∧
  (∀ i, find_suite_with_name (test_suites env) (num_test_suites env) n = Some i →
        find_or_add_suite env n = Ok (env, i)).
Proof.
  intros (Hlen & Hnum & _). unfold find_or_add_suite. split.
  - destruct (find_suite_with_name _ _ n) as [j|].
    + split; [done|]. by intros [_ ?].
    + unfold add_new_suite, store. case_decide; simpl; split; try done.
      * intros [? _]. lia.
      * intros _. split; [lia|done].
  - by intros i ->.
Qed.

(** ** Further properties of the built environment *)

Lemma scheduled_sum (env : rktest_environment_t) :
  env_wf env →
  length (scheduled env) =
  sum_list_with num_tests (take (num_test_suites env) (test_suites env)).
Proof.
  intros (_ & _ & Hsuites). unfold scheduled, env_view.
  induction Hsuites as [|suite l [Hlen Hnum] _ IH]; [done|].
  rewrite !fmap_cons. cbn [concat sum_list_with].
  change (snd (suite_view suite)) with (take (num_tests suite) (tests suite)).
  rewrite length_app, length_take, IH. lia.
Qed.

(** Whatever the section, the environment [setup_test_env] returns has
    [total_num_tests] equal to the sum of the [num_tests] of its suites,
    which is the number of tests a run will execute. *)
Theorem setup_test_env_total (fuel : nat) (reg : registry) (env : rktest_environment_t) :
  setup_test_env fuel reg = Ok env →
  total_num_tests env =
    sum_list_with num_tests (take (num_test_suites env) (test_suites env)) ∧
  total_num_tests env = length (scheduled env).
Proof.
  intros Hsetup. pose proof (setup_test_env_invariant fuel reg) as Hinv.
  rewrite Hsetup in Hinv. destruct Hinv as [Hwf Htotal].
  split; [|done]. by rewrite Htotal, scheduled_sum.
Qed.

(** When the slot next to [test_data_begin] is padding, the environment
    groups all the descriptors of the section as the specification says:
    suites in first-seen order of their names, each with its tests in
    registration order, [total_num_tests] descriptors and as many suites as
    distinct names. *)
Theorem setup_test_env_groups_padded (fuel : nat) (reg : registry)
    (env : rktest_environment_t) :
  length reg < fuel →
  setup_test_env fuel (None :: reg) = Ok env →
  env_view env = spec_group (descriptors (None :: reg)) ∧
  total_num_tests env = length (descriptors (None :: reg)) ∧
  num_test_suites env = length (first_seen (suite_name <$> descriptors (None :: reg))).
Proof.
  intros Hfuel Hsetup. change (descriptors (None :: reg)) with (descriptors reg).
  by destruct (setup_test_env_spec_group fuel None reg env Hfuel Hsetup) as (? & ? & ?).
Qed.

Lemma spec_group_elem (descs : list rktest_test_t) (n : string) (ts : list rktest_test_t) :
  (n, ts) ∈ spec_group descs ↔ n ∈ suite_name <$> descs ∧ ts = tests_of n descs.
Proof.
  unfold spec_group. rewrite list_elem_of_fmap. split.
  - intros (m & [= -> ->] & Hm). by rewrite first_seen_elem in Hm.
  - intros [Hn ->]. exists n. by rewrite first_seen_elem.
Qed.

Lemma spec_group_names (descs : list rktest_test_t) :
  fst <$> spec_group descs = first_seen (suite_name <$> descs).
Proof.
  unfold spec_group. generalize (first_seen (suite_name <$> descs)).
  intros names. induction names as [|n names IH]; [done|].
  rewrite !fmap_cons. simpl. by rewrite IH.
Qed.

(** In a built environment the suite names are pairwise different, no
    suite is empty, and every test sits in the suite whose name it
    bears. *)
Theorem setup_test_env_suites (fuel : nat) (slot : option rktest_test_t) (reg : registry)
    (env : rktest_environment_t) :
  length reg < fuel →
  setup_test_env fuel (slot :: reg) = Ok env →
  NoDup (fst <$> env_view env) ∧
  ∀ n ts, (n, ts) ∈ env_view env →
    ts ≠ [] ∧ ∀ test, test ∈ ts → suite_name test = n.
Proof.
  intros Hfuel Hsetup.
  destruct (setup_test_env_spec_group fuel slot reg env Hfuel Hsetup) as (-> & _ & _).
  split.
  - rewrite spec_group_names. apply first_seen_NoDup.
  - intros n ts [Hn ->]%spec_group_elem. unfold tests_of. split.
    + apply list_elem_of_fmap in Hn as (test & -> & Htest).
      intros Hnil. assert (test ∈ filter (λ t, suite_name t = suite_name test)
                             (descriptors reg)) as Hin
        by (by apply list_elem_of_filter).
      rewrite Hnil in Hin. by apply elem_of_nil in Hin.
    + by intros test [? _]%list_elem_of_filter.
Qed.

Lemma insert_test_Permutation (test : rktest_test_t) (g : list (string * list rktest_test_t)) :
  concat (snd <$> insert_test test g) ≡ₚ concat (snd <$> g) ++ [test].
Proof.
  induction g as [|[n ts] g IH]; [done|]. cbn [insert_test].
  case_decide; rewrite !fmap_cons; cbn [concat snd].
  - rewrite <- !app_assoc. apply Permutation_app_head, Permutation_app_comm.
  - by rewrite IH, app_assoc.
Qed.

Lemma spec_group_Permutation (descs : list rktest_test_t) :
  concat (snd <$> spec_group descs) ≡ₚ descs.
Proof.
  induction descs as [|test descs IH] using rev_ind; [done|].
  by rewrite spec_group_snoc, insert_test_Permutation, IH.
Qed.

(** Every descriptor after the first slot is scheduled exactly once: the
    tests a run executes are a permutation of them (duplicates
    included). *)
Theorem setup_test_env_schedules_all (fuel : nat) (slot : option rktest_test_t)
    (reg : registry) (env : rktest_environment_t) :
  length reg < fuel →
  setup_test_env fuel (slot :: reg) = Ok env →
  scheduled env ≡ₚ descriptors reg.
Proof.
  intros Hfuel Hsetup.
  destruct (setup_test_env_spec_group fuel slot reg env Hfuel Hsetup) as (Hview & _ & _).
  unfold scheduled. rewrite Hview. apply spec_group_Permutation.
Qed.

(** ** Further properties of the capacity checks *)

(** Descriptors after the first slot that exceed a limit (more distinct
    suite names than [RKTEST_MAX_NUM_TEST_SUITES], or more tests of one
    suite than [RKTEST_MAX_NUM_TESTS_PER_SUITE]) always end the process:
    no environment is returned. *)
Theorem setup_test_env_over_limit (fuel : nat) (slot : option rktest_test_t) (reg : registry) :
  length reg < fuel →
  RKTEST_MAX_NUM_TEST_SUITES < length (first_seen (suite_name <$> descriptors reg)) ∨
  (∃ n, RKTEST_MAX_NUM_TESTS_PER_SUITE < length (tests_of n (descriptors reg))) →
  ∃ d, setup_test_env fuel (slot :: reg) = Exit d.
Proof.
  intros Hfuel Hover.
  pose proof (setup_test_env_built_within fuel slot reg) as Hwithin.
  rewrite setup_test_env_foreach in * by done.
  pose proof (foreach_add_test_refines (descriptors reg) empty_env empty_env_wf) as Hrun.
  destruct (foreach add_test _ _) as [env|d| |]; try done; [|by exists d].
  destruct (Hwithin env Hfuel eq_refl) as [Hsuites Htests].
  destruct Hover as [?|[n ?]]; [lia|]. specialize (Htests n). lia.
Qed.

Lemma foreach_add_test_view_Exit (descs : list rktest_test_t) (d : diagnostic) :
  foreach add_test_view descs [] = Exit d →
  ∃ i test, descs !! i = Some test ∧
            foreach add_test_view (take i descs) [] = Ok (spec_group (take i descs)) ∧
            add_test_view test (spec_group (take i descs)) = Exit d.
Proof.
  induction descs as [|test descs IH] using rev_ind; [done|].
  rewrite foreach_snoc.
  destruct (foreach add_test_view descs []) as [g|d'| |] eqn:Hrun; simpl; try done.
  - intros Hlast. exists (length descs), test.
    rewrite list_lookup_middle, take_app_length by done.
    pose proof Hrun as Hg. apply foreach_add_test_view_insert in Hg.
    rewrite insert_all_spec_group in Hg. subst g. by rewrite Hrun.
  - intros [= ->]. destruct (IH eq_refl) as (i & test' & Hi & Hpre & Hat).
    apply lookup_lt_Some in Hi as Hlt. exists i, test'.
    by rewrite lookup_app_l, take_app_le by lia.
Qed.

(** The diagnostic names the limit that was hit, at the first descriptor
    that hits one.  The suite limit is tested first: [TooManySuites] means
    that as many suites as [RKTEST_MAX_NUM_TEST_SUITES] had been created
    when the descriptor was met; [TooManyTests] names the suite of the
    descriptor, which held [RKTEST_MAX_NUM_TESTS_PER_SUITE] tests
    already. *)
Theorem setup_test_env_diagnostic (fuel : nat) (slot : option rktest_test_t) (reg : registry)
    (d : diagnostic) :
  length reg < fuel →
  setup_test_env fuel (slot :: reg) = Exit d →
  ∃ i test,
    descriptors reg !! i = Some test ∧
    (∀ j test', j < i → descriptors reg !! j = Some test' →
       length (first_seen (suite_name <$> take j (descriptors reg))) ≠
         RKTEST_MAX_NUM_TEST_SUITES ∧
       length (tests_of (suite_name test') (take j (descriptors reg))) ≠
         RKTEST_MAX_NUM_TESTS_PER_SUITE) ∧
    match d with
    | TooManySuites =>
        length (first_seen (suite_name <$> take i (descriptors reg))) =
          RKTEST_MAX_NUM_TEST_SUITES
    | TooManyTests n =>
        n = suite_name test ∧
        length (first_seen (suite_name <$> take i (descriptors reg))) ≠
          RKTEST_MAX_NUM_TEST_SUITES ∧
        length (tests_of n (take i (descriptors reg))) = RKTEST_MAX_NUM_TESTS_PER_SUITE
    end.
Proof.
  intros Hfuel Hsetup. rewrite setup_test_env_foreach in Hsetup by done.
  pose proof (foreach_add_test_refines (descriptors reg) empty_env empty_env_wf) as Hrun.
  rewrite Hsetup, empty_env_view in Hrun.
  apply foreach_add_test_view_Exit in Hrun as (i & test & Hi & Hpre & Hat).
  exists i, test. split; [done|]. split.
  - intros j test' Hj Hj'. rewrite foreach_add_test_view_exact in Hpre.
    specialize (Hpre j test'). rewrite lookup_take_lt, take_take in Hpre by done.
    replace (j `min` i) with j in Hpre by lia. by apply Hpre.
  - unfold add_test_view in Hat. rewrite spec_group_length, suite_tests_spec_group in Hat.
    repeat case_decide; try done; by injection Hat as <-.
Qed.

(** The builder completes, with the grouping of the specification,
    whenever the descriptors after the first slot span fewer suite names
    than [RKTEST_MAX_NUM_TEST_SUITES] and put at most
    [RKTEST_MAX_NUM_TESTS_PER_SUITE] tests in each suite. *)
Theorem setup_test_env_with_slack (fuel : nat) (slot : option rktest_test_t) (reg : registry) :
  length reg < fuel →
  length (first_seen (suite_name <$> descriptors reg)) < RKTEST_MAX_NUM_TEST_SUITES →
  (∀ n, length (tests_of n (descriptors reg)) ≤ RKTEST_MAX_NUM_TESTS_PER_SUITE) →
  ∃ env, setup_test_env fuel (slot :: reg) = Ok env ∧
         env_view env = spec_group (descriptors reg) ∧
         total_num_tests env = length (descriptors reg).
Proof.
  intros Hfuel Hsuites Htests. rewrite setup_test_env_foreach by done.
  pose proof (foreach_add_test_refines (descriptors reg) empty_env empty_env_wf) as Hrun.
  rewrite empty_env_view, foreach_add_test_view_completes in Hrun by done.
  destruct (foreach add_test _ _) as [env| | |]; try done.
  destruct Hrun as (_ & [= Hview] & Htotal). exists env. split; [done|]. split; [done|].
  simpl in Htotal. lia.
Qed.


(** ** Further properties of a run *)

(** [run_test] does not clear the signal before it calls the test: a
    signal that is set when [run_test] starts makes the test fail whatever
    its body does, and in a run only the first test is affected. *)
Theorem run_all_tests_stale_signal (fuel : nat) (reg : registry) (env : rktest_environment_t)
    (w w' : world) (report : rktest_report_t) :
  g_current_test_failed w = true →
  (∀ test, fst (run_test test w) = false) ∧
  (setup_test_env fuel reg = Ok env →
   run_all_tests env w = Ok (report, w') →
   ∀ first rest, scheduled env = first :: rest →
     failed_view report = first :: filter (λ t, signals_failure t = true) rest).
Proof.
  intros Hset. split.
  - intros test. by rewrite run_test_passed, Hset.
  - intros Hsetup Hrun first rest Hsched.
    pose proof (setup_test_env_invariant fuel reg) as Hinv.
    rewrite Hsetup in Hinv. destruct Hinv as [Hwf _].
    destruct (run_all_tests_spec env w Hwf) as (report0 & w0 & Hrun0 & Hview & _).
    rewrite Hrun in Hrun0. injection Hrun0 as <- <-.
    by rewrite Hview, Hsched, Hset.
Qed.






(** ** What a run prints *)

Lemma call_frame (c : test_code) (w : world) :
  output (call c w) = output w ∧ g_colors_enabled (call c w) = g_colors_enabled w.
Proof. rewrite call_calls. by destruct (bool_decide _). Qed.

Lemma run_test_output (test : rktest_test_t) (w : world) :
  output (snd (run_test test w)) =
    output w ++ [RunNotice (suite_name test) (test_name test);
                 if fst (run_test test w)
                 then OkNotice (suite_name test) (test_name test)
                 else FailedNotice (suite_name test) (test_name test)] ∧
  g_colors_enabled (snd (run_test test w)) = g_colors_enabled w.
Proof.
  unfold run_test. destruct (func test) as [c|]; simpl.
  - destruct (call_frame c (print (RunNotice (suite_name test) (test_name test)) w))
      as [Hout Hcol].
    destruct (negb _); simpl; rewrite Hout, Hcol; simpl; by rewrite <- app_assoc.
  - destruct (negb _); simpl; by rewrite <- app_assoc.
Qed.

Lemma run_and_record_world (test : rktest_test_t) (report report' : rktest_report_t)
    (w w' : world) :
  run_and_record test (report, w) = Ok (report', w') → w' = snd (run_test test w).
Proof.
  unfold run_and_record. destruct (run_test test w) as [[] w1]; simpl.
  - by intros [= _ <-].
  - destruct (store _ _ _); simpl; try done. by intros [= _ <-].
Qed.

Lemma lines_app (out1 out2 : list notice) :
  run_lines (out1 ++ out2) = run_lines out1 ++ run_lines out2 ∧
  ok_lines (out1 ++ out2) = ok_lines out1 ++ ok_lines out2 ∧
  failed_lines (out1 ++ out2) = failed_lines out1 ++ failed_lines out2 ∧
  suite_lines (out1 ++ out2) = suite_lines out1 ++ suite_lines out2 ∧
  suite_done_lines (out1 ++ out2) = suite_done_lines out1 ++ suite_done_lines out2 ∧
  failed_count_lines (out1 ++ out2) = failed_count_lines out1 ++ failed_count_lines out2.
Proof.
  unfold run_lines, ok_lines, failed_lines, suite_lines, suite_done_lines, failed_count_lines.
  by rewrite !omap_app.
Qed.

Lemma foreach_run_and_record_output (ts : list rktest_test_t) (report report' : rktest_report_t)
    (w w' : world) :
  foreach run_and_record ts (report, w) = Ok (report', w') →
  ∃ out, output w' = output w ++ out ∧
         run_lines out = test_id <$> ts ∧
         failed_lines out = test_id <$> failing (g_current_test_failed w) ts ∧
         length (ok_lines out) + length (failing (g_current_test_failed w) ts) = length ts ∧
         suite_lines out = [] ∧ suite_done_lines out = [] ∧
         failed_count_lines out = [] ∧
         g_colors_enabled w' = g_colors_enabled w.
Proof.
  revert report w. induction ts as [|t ts IH]; intros report w Hrun.
  - injection Hrun as <- <-. exists []. by rewrite app_nil_r.
  - cbn [foreach] in Hrun. apply bind_Ok in Hrun as ([r0 w0] & Hstep & Hrun).
    apply run_and_record_world in Hstep as ->.
    destruct (IH _ _ Hrun) as (out & Hout & Hruns & Hfailed & Hok & Hsuite & Hdone & Hcount & Hcol).
    destruct (run_test_output t w) as [Hout0 Hcol0].
    rewrite run_test_resets in Hfailed, Hok. rewrite run_test_passed in Hout0.
    eexists (_ ++ out). split; [by rewrite Hout, Hout0, <- app_assoc|].
    destruct (lines_app
                [RunNotice (suite_name t) (test_name t);
                 if negb (g_current_test_failed w || signals_failure t)
                 then OkNotice (suite_name t) (test_name t)
                 else FailedNotice (suite_name t) (test_name t)] out)
      as (-> & -> & -> & -> & -> & ->).
    rewrite Hruns, Hfailed, Hsuite, Hdone, Hcount, failing_cons, Hcol, Hcol0.
    destruct (g_current_test_failed w || signals_failure t); simpl;
      repeat split; try done; lia.
Qed.

Lemma foreach_run_suite_output (suites : list rktest_suite_t) (report report' : rktest_report_t)
    (w w' : world) :
  foreach run_suite suites (report, w) = Ok (report', w') →
  ∃ out, output w' = output w ++ out ∧
         run_lines out = test_id <$> concat (snd <$> (suite_view <$> suites)) ∧
         failed_lines out =
           test_id <$> failing (g_current_test_failed w)
                         (concat (snd <$> (suite_view <$> suites))) ∧
         length (ok_lines out) +
           length (failing (g_current_test_failed w)
                     (concat (snd <$> (suite_view <$> suites)))) =
           length (concat (snd <$> (suite_view <$> suites))) ∧
         suite_lines out = (λ s, (num_tests s, name s)) <$> suites ∧
         suite_done_lines out = (λ s, (num_tests s, name s)) <$> suites ∧
         failed_count_lines out = [] ∧
         g_colors_enabled w' = g_colors_enabled w.
Proof.
  revert report w. induction suites as [|suite suites IH]; intros report w Hrun.
  - injection Hrun as <- <-. exists []. by rewrite app_nil_r.
  - cbn [foreach] in Hrun. apply bind_Ok in Hrun as ([r0 w0] & Hstep & Hrun).
    unfold run_suite in Hstep at 1. apply bind_Ok in Hstep as ([r1 w1] & Hinner & [= <- <-]).
    pose proof (foreach_run_and_record (take (num_tests suite) (tests suite)) report
                  (print (SuiteNotice (num_tests suite) (name suite)) w)) as Hspec.
    rewrite Hinner in Hspec. destruct Hspec as (_ & _ & _ & _ & Hsig).
    apply foreach_run_and_record_output in Hinner
      as (out1 & Hout1 & Hruns1 & Hfailed1 & Hok1 & Hsuite1 & Hdone1 & Hcount1 & Hcol1).
    destruct (IH _ _ Hrun) as (out & Hout & Hruns & Hfailed & Hok & Hsuite & Hdone & Hcount & Hcol).
    simpl in Hfailed1, Hok1, Hsig, Hfailed, Hok, Hout, Hcol, Hout1, Hcol1.
    rewrite Hsig in Hfailed, Hok.
    exists ([SuiteNotice (num_tests suite) (name suite)] ++ out1 ++
            [SuiteDoneNotice (num_tests suite) (name suite); BlankLine] ++ out).
    rewrite !fmap_cons. cbn [concat].
    change (snd (suite_view suite)) with (take (num_tests suite) (tests suite)).
    rewrite failing_app, !fmap_app, !length_app.
    split; [rewrite Hout, Hout1; simpl; by rewrite <- !app_assoc|].
    destruct (lines_app [SuiteNotice (num_tests suite) (name suite)]
                (out1 ++ [SuiteDoneNotice (num_tests suite) (name suite); BlankLine] ++ out))
      as (-> & -> & -> & -> & -> & ->).
    destruct (lines_app out1
                ([SuiteDoneNotice (num_tests suite) (name suite); BlankLine] ++ out))
      as (-> & -> & -> & -> & -> & ->).
    destruct (lines_app [SuiteDoneNotice (num_tests suite) (name suite); BlankLine] out)
      as (-> & -> & -> & -> & -> & ->).
    rewrite Hruns1, Hruns, Hfailed1, Hfailed, Hsuite1, Hsuite, Hdone1, Hdone, Hcount1, Hcount.
    simpl. rewrite length_app. repeat split; try done; [lia|congruence].
Qed.

(** The lines of a run agree with its report and with the environment:
    there is one RUN line per scheduled test, in the order of the
    environment; the FAILED lines name the failed tests of the report, in
    order; there are as many OK lines as [num_passed_tests]; and every
    suite is opened and closed once, with its name and its number of
    tests. *)
Theorem run_all_tests_output (env : rktest_environment_t) (w w' : world)
    (report : rktest_report_t) :
  run_all_tests env w = Ok (report, w') →
  ∃ out, output w' = output w ++ out ∧
         run_lines out = test_id <$> scheduled env ∧
         failed_lines out = test_id <$> failed_view report ∧
         length (ok_lines out) = num_passed_tests report ∧
         suite_lines out = (λ s, (num_tests s, name s)) <$>
                             take (num_test_suites env) (test_suites env) ∧
         suite_done_lines out = suite_lines out.
Proof.
  intros Hrun. unfold run_all_tests in Hrun.
  pose proof (foreach_run_suite (take (num_test_suites env) (test_suites env))
                empty_report w) as Hspec.
  rewrite Hrun in Hspec. destruct Hspec as (Hview & _ & Hpass & _ & _).
  apply foreach_run_suite_output in Hrun
    as (out & Hout & Hruns & Hfailed & Hok & Hsuite & Hdone & _ & _).
  exists out. split; [done|]. split; [done|]. split; [by rewrite Hview|].
  split; [simpl in Hpass; lia|]. by rewrite Hdone, Hsuite.
Qed.

Lemma foldl_print (f : rktest_test_t → notice) (ts : list rktest_test_t) (w : world) :
  output (foldl (λ w t, print (f t) w) w ts) = output w ++ (f <$> ts) ∧
  g_current_test_failed (foldl (λ w t, print (f t) w) w ts) = g_current_test_failed w ∧
  g_colors_enabled (foldl (λ w t, print (f t) w) w ts) = g_colors_enabled w.
Proof.
  revert w. induction ts as [|t ts IH]; intros w; simpl; [by rewrite app_nil_r|].
  destruct (IH (print (f t) w)) as (-> & -> & ->). simpl. by rewrite <- app_assoc.
Qed.

Lemma print_failed_tests_frame (report : rktest_report_t) (w : world) :
  output (print_failed_tests report w) =
    output w ++
    [FailedListNotice (num_failed_tests report)] ++
    ((λ t, FailedNotice (suite_name t) (test_name t)) <$> failed_view report) ++
    [BlankLine; FailedCountNotice (num_failed_tests report)] ∧
  g_current_test_failed (print_failed_tests report w) = g_current_test_failed w ∧
  g_colors_enabled (print_failed_tests report w) = g_colors_enabled w.
Proof.
  unfold print_failed_tests. simpl.
  destruct (foldl_print (λ t, FailedNotice (suite_name t) (test_name t))
              (take (num_failed_tests report) (failed_tests report))
              (print (FailedListNotice (num_failed_tests report)) w)) as (Hout & Hsig & Hcol).
  rewrite Hout, Hsig, Hcol. simpl. fold (failed_view report).
  split; [by rewrite <- !app_assoc|done].
Qed.


Lemma failed_block_lines (n : nat) (ts : list rktest_test_t) :
  let block := [FailedListNotice n] ++
               ((λ t, FailedNotice (suite_name t) (test_name t)) <$> ts) ++
               [BlankLine; FailedCountNotice n] in
  run_lines block = [] ∧ ok_lines block = [] ∧ failed_lines block = test_id <$> ts ∧
  failed_count_lines block = [n].
Proof.
  cbv zeta.
  destruct (lines_app [FailedListNotice n]
              (((λ t, FailedNotice (suite_name t) (test_name t)) <$> ts) ++
               [BlankLine; FailedCountNotice n])) as (-> & -> & -> & _ & _ & ->).
  destruct (lines_app ((λ t, FailedNotice (suite_name t) (test_name t)) <$> ts)
              [BlankLine; FailedCountNotice n]) as (-> & -> & -> & _ & _ & ->).
  induction ts as [|t ts (IH1 & IH2 & IH3 & IH4)]; [done|].
  rewrite !fmap_cons.
  change (run_lines (FailedNotice (suite_name t) (test_name t) :: ?l)) with (run_lines l).
  change (ok_lines (FailedNotice (suite_name t) (test_name t) :: ?l)) with (ok_lines l).
  change (failed_count_lines (FailedNotice (suite_name t) (test_name t) :: ?l))
    with (failed_count_lines l).
  change (failed_lines (FailedNotice (suite_name t) (test_name t) :: ?l))
    with (test_id t :: failed_lines l).
  split; [done|]. split; [done|]. split; [|done].
  simpl in *. by rewrite IH3.
Qed.

(** What [rktest_main] prints when it returns: the header with the
    totals of the environment, one RUN line per scheduled test, as many OK
    lines as passed tests, the totals again; every failed test is named
    twice, once as it fails and once in the closing list; and the
    " %zu FAILED TESTS" line is printed exactly when the status is 0.
    Colours are enabled afterwards. *)
Theorem rktest_main_output (fuel : nat) (reg : registry) (w w' : world) (status : Z)
    (report : rktest_report_t) :
  rktest_main_report fuel reg w = Ok (status, report, w') →
  ∃ env out,
    setup_test_env fuel reg = Ok env ∧
    output w' = output w ++ out ∧
    head out = Some (RunningNotice (total_num_tests env) (num_test_suites env)) ∧
    RanNotice (total_num_tests env) (num_test_suites env) ∈ out ∧
    PassedNotice (num_passed_tests report) ∈ out ∧
    run_lines out = test_id <$> scheduled env ∧
    length (ok_lines out) = num_passed_tests report ∧
    failed_lines out = (test_id <$> failed_view report) ++ (test_id <$> failed_view report) ∧
    failed_count_lines out =
      (if decide (status = 0%Z) then [num_failed_tests report] else []) ∧
    rktest_colors_enabled w' = true.
Proof.
  unfold rktest_main_report. intros Hmain.
  apply bind_Ok in Hmain as (env & Hsetup & Hmain). cbv zeta in Hmain.
  apply bind_Ok in Hmain as ([report0 w1] & Hrun & Hmain).
  injection Hmain as <- <- <-. exists env.
  unfold run_all_tests in Hrun.
  pose proof (foreach_run_suite (take (num_test_suites env) (test_suites env))
                empty_report
                (print SetUpNotice
                   (print (RunningNotice (total_num_tests env) (num_test_suites env))
                      (initialize w)))) as Hspec.
  rewrite Hrun in Hspec. destruct Hspec as (Hview & Hnum & Hpass & _ & _).
  apply foreach_run_suite_output in Hrun
    as (out & Hout & Hruns & Hfailed & Hok & _ & _ & Hcount & Hcol).
  fold (env_view env) in *. fold (scheduled env) in *.
  simpl in Hview, Hnum, Hpass, Hout, Hcol, Hfailed, Hok.
  rewrite <- Hview in Hfailed. rewrite <- Hnum in Hpass, Hok.
  set (header := [RunningNotice (total_num_tests env) (num_test_suites env); SetUpNotice]).
  set (footer := [TearDownNotice; RanNotice (total_num_tests env) (num_test_suites env);
                  PassedNotice (num_passed_tests report0)]).
  set (block := [FailedListNotice (num_failed_tests report0)] ++
                ((λ t, FailedNotice (suite_name t) (test_name t)) <$> failed_view report0) ++
                [BlankLine; FailedCountNotice (num_failed_tests report0)]).
  exists (header ++ out ++ footer ++
          (if bool_decide (num_failed_tests report0 = 0) then [] else block)).
  destruct (lines_app header
              (out ++ footer ++
               (if bool_decide (num_failed_tests report0 = 0) then [] else block)))
    as (-> & -> & -> & _ & _ & ->).
  destruct (lines_app out
              (footer ++ (if bool_decide (num_failed_tests report0 = 0) then [] else block)))
    as (-> & -> & -> & _ & _ & ->).
  destruct (lines_app footer
              (if bool_decide (num_failed_tests report0 = 0) then [] else block))
    as (-> & -> & -> & _ & _ & ->).
  rewrite Hruns, Hfailed, Hcount.
  assert (run_lines header = [] ∧ ok_lines header = [] ∧ failed_lines header = [] ∧
          failed_count_lines header = []) as (-> & -> & -> & ->) by done.
  assert (run_lines footer = [] ∧ ok_lines footer = [] ∧ failed_lines footer = [] ∧
          failed_count_lines footer = []) as (-> & -> & -> & ->) by done.
  destruct (failed_block_lines (num_failed_tests report0) (failed_view report0))
    as (Hb1 & Hb2 & Hb3 & Hb4). cbv zeta in Hb1, Hb2, Hb3, Hb4. fold block in Hb1, Hb2, Hb3, Hb4.
  split; [done|]. split.
  { case_bool_decide; cbn [negb].
    - cbn [print output]. rewrite Hout. simpl. by rewrite <- !app_assoc.
    - destruct (print_failed_tests_frame report0
                  (print (PassedNotice (num_passed_tests report0))
                     (print (RanNotice (total_num_tests env) (num_test_suites env))
                        (print TearDownNotice w1)))) as (-> & _).
      cbn [print output]. rewrite Hout. simpl. by rewrite <- !app_assoc. }
  split; [done|].
  split; [rewrite !elem_of_app; right; right; left; apply list_elem_of_In; simpl; tauto|].
  split; [rewrite !elem_of_app; right; right; left; apply list_elem_of_In; simpl; tauto|].
  case_bool_decide as Hnone; cbn [negb Z.b2z].
  - rewrite !app_nil_r.
    assert (failed_view report0 = []) as Hempty by (unfold failed_view; by rewrite Hnone).
    rewrite Hempty in *. simpl in Hok. cbn [app]. rewrite !app_nil_r.
    rewrite decide_False by done. repeat split; try done; lia.
  - rewrite Hb1, Hb2, Hb3, Hb4. cbn [app]. rewrite !app_nil_r. simpl in Hok.
    rewrite decide_True by done.
    repeat split; try done; [lia|]. unfold rktest_colors_enabled.
    destruct (print_failed_tests_frame report0
                (print (PassedNotice (num_passed_tests report0))
                   (print (RanNotice (total_num_tests env) (num_test_suites env))
                      (print TearDownNotice w1)))) as (_ & _ & ->).
    simpl. by rewrite Hcol.
Qed.

Lemma filter_signals_nil (ts : list rktest_test_t) :
  filter (λ t, signals_failure t = true) ts = [] ↔
  ∀ t, t ∈ ts → signals_failure t = false.
Proof.
  induction ts as [|t ts IH].
  - split; [|done]. by intros _ t ?%elem_of_nil.
  - rewrite filter_cons. destruct (signals_failure t) eqn:Hsig.
    + rewrite decide_True by done. split; [done|].
      intros Hall. specialize (Hall t ltac:(left)). congruence.
    + rewrite decide_False by done. rewrite IH. split.
      * intros Hall t' [->|?]%elem_of_cons; auto.
      * intros Hall t' Hin. apply Hall. by right.
Qed.

(** End to end: when the slot next to [test_data_begin] is padding and
    the signal is clear at the start, the status [rktest_main] returns is
    1 exactly when no registered test marks itself failed, and 0 exactly
    when some registered test does; the signal is clear again at the
    end. *)
Theorem rktest_main_verdict (fuel : nat) (reg : registry) (w w' : world) (status : Z) :
  length reg < fuel →
  g_current_test_failed w = false →
  rktest_main fuel (None :: reg) w = Ok (status, w') →
  (status = 1%Z ↔ ∀ t, t ∈ descriptors (None :: reg) → signals_failure t = false) ∧
  (status = 0%Z ↔ ∃ t, t ∈ descriptors (None :: reg) ∧ signals_failure t = true) ∧
  g_current_test_failed w' = false.
Proof.
  intros Hfuel Hclear Hmain. change (descriptors (None :: reg)) with (descriptors reg).
  unfold rktest_main in Hmain. apply bind_Ok in Hmain as ([[status0 report] w0] & Hmain & Heq).
  injection Heq as -> ->. unfold rktest_main_report in Hmain.
  apply bind_Ok in Hmain as (env & Hsetup & Hmain). cbv zeta in Hmain.
  apply bind_Ok in Hmain as ([report0 w1] & Hrun & Hmain). injection Hmain as <- <- <-.
  pose proof (setup_test_env_invariant fuel (None :: reg)) as Hinv.
  rewrite Hsetup in Hinv. destruct Hinv as [Hwf _].
  destruct (run_all_tests_spec env
              (print SetUpNotice
                 (print (RunningNotice (total_num_tests env) (num_test_suites env))
                    (initialize w))) Hwf)
    as (report1 & w2 & Hrun1 & Hview & Hfailed & _ & _ & _ & Hsig).
  rewrite Hrun in Hrun1. injection Hrun1 as <- <-.
  simpl in Hview, Hfailed, Hsig. rewrite Hclear in Hview, Hfailed, Hsig.
  rewrite failing_false in Hview, Hfailed.
  destruct (setup_test_env_spec_group fuel None reg env Hfuel Hsetup) as (Hgroup & _ & _).
  assert (scheduled env ≡ₚ descriptors reg) as Hperm
    by (unfold scheduled; rewrite Hgroup; apply spec_group_Permutation).
  assert (num_failed_tests report0 = 0 ↔
          ∀ t, t ∈ descriptors reg → signals_failure t = false) as Hnone.
  { rewrite Hfailed. transitivity (filter (λ t, signals_failure t = true) (scheduled env) = []).
    - split; [apply nil_length_inv|by intros ->].
    - rewrite filter_signals_nil.
      split; intros Hall t Hin; apply Hall; [by rewrite Hperm|by rewrite <- Hperm]. }
  split; [|split].
  - rewrite <- Hnone. by case_bool_decide.
  - case_bool_decide as Hzero; simpl.
    + split; [done|]. intros (t & Hin & Hsignals).
      rewrite Hnone in Hzero. specialize (Hzero t Hin). congruence.
    + split; [|done]. intros _.
      destruct (filter (λ t, signals_failure t = true) (scheduled env)) as [|t ts] eqn:Hfilter;
        [simpl in Hfailed; lia|].
      assert (t ∈ filter (λ t, signals_failure t = true) (scheduled env)) as Hin
        by (rewrite Hfilter; left).
      apply list_elem_of_filter in Hin as [Hsignals Hin]. exists t.
      split; [by rewrite <- Hperm|done].
  - assert (g_current_test_failed w1 = false) as Hclear1 by (rewrite Hsig; by destruct (scheduled env)).
    case_bool_decide; cbn [negb]; [done|].
    by destruct (print_failed_tests_frame report0
                   (print (PassedNotice (num_passed_tests report0))
                      (print (RanNotice (total_num_tests env) (num_test_suites env))
                         (print TearDownNotice w1)))) as (_ & -> & _).
Qed.

End Runner.

(** ** The sample run *)

Example sample_env_built : setup_test_env 2 2 5 sample_registry = Ok sample_env.
Proof. vm_compute. reflexivity. Qed.

Lemma setup_test_env_exits_within_limits_witness :
  within_limits 2 2 [None; Some A_t1; Some B_t1; Some A_t2] ∧
  setup_test_env 2 2 3 [None; Some A_t1; Some B_t1] ≠ Exit TooManySuites ∧
  setup_test_env 2 2 4 [None; Some A_t1; Some B_t1; Some A_t2] = Exit TooManySuites.
Proof.
  assert (within_limits 2 2 [None; Some A_t1; Some B_t1; Some A_t2]) as Hwithin.
  { split; [vm_compute; lia|]. intros suite. unfold tests_of, descriptors. simpl.
    rewrite !filter_cons, filter_nil. repeat case_decide; simplify_eq; simpl; lia. }
  split; [done|]. split; [by vm_compute|].
  eapply (setup_test_env_exits_within_limits 2 2 3 None [Some A_t1; Some B_t1] _ A_t2).
  - simpl. lia.
  - vm_compute. reflexivity.
  - reflexivity.
  - exact Hwithin.
Defined.

Lemma setup_test_env_example_order_witness :
  ∃ env, setup_test_env 3 3 3 [Some A_t1; Some B_t1; Some A_t2] = Ok env ∧
         env_view env = [("B", [B_t1]); ("A", [A_t2])] ∧
         spec_group (descriptors [Some A_t1; Some B_t1; Some A_t2]) =
           [("A", [A_t1; A_t2]); ("B", [B_t1])].
Proof. apply (setup_test_env_example_order 3 3 3); lia. Defined.

Lemma run_all_tests_accounts_witness :
  (∃ report',
     run_and_record A_t2 (empty_report 2 2, initial_world) =
       Ok (report', snd (run_test A_t2 initial_world)) ∧
     num_passed_tests report' = 0 ∧
     num_failed_tests report' = 1 ∧
     failed_view report' = [A_t2]) ∧
  (∃ report w',
     run_all_tests 2 2 sample_env initial_world = Ok (report, w') ∧
     num_passed_tests report + num_failed_tests report = total_num_tests sample_env ∧
     failed_view report = failing false (scheduled sample_env) ∧
     failed_view report `sublist_of` scheduled sample_env ∧
     num_passed_tests report =
       length (scheduled sample_env) - length (failing false (scheduled sample_env))).
Proof.
  split.
  - apply (proj1 (run_all_tests_accounts 2 2) A_t2 (empty_report 2 2) initial_world).
    simpl. lia.
  - apply (proj2 (run_all_tests_accounts 2 2) 5 sample_registry sample_env initial_world).
    vm_compute. reflexivity.
Defined.

Lemma rktest_main_status_witness :
  ∃ status report w',
    rktest_main_report 2 2 5 sample_registry initial_world = Ok (status, report, w') ∧
    rktest_main 2 2 5 sample_registry initial_world = Ok (status, w') ∧
    (status = 1%Z ∨ status = 0%Z) ∧
    (status ≠ 0%Z ↔ num_failed_tests report = 0) ∧
    (num_failed_tests report = 0 ↔ num_passed_tests report = total_num_tests sample_env) ∧
    (num_failed_tests report = 0 ↔ failing false (scheduled sample_env) = []).
Proof.
  apply (rktest_main_status 2 2 5 sample_registry sample_env initial_world).
  vm_compute. reflexivity.
Defined.

Lemma fail_current_test_boolean_witness :
  fst (run_test A_t2 initial_world) = false ∧
  run_test A_t2 initial_world =
  run_test {| suite_name := "A"; test_name := "t2"; func := Some FailCurrentTest |}
    initial_world.
Proof.
  destruct (fail_current_test_boolean A_t2 initial_world eq_refl) as (Hfail & _ & Honce).
  split.
  - apply Hfail. eexists. split; [reflexivity|]. simpl. lia.
  - eapply Honce; [reflexivity|]. simpl. lia.
Defined.

Lemma null_func_passes_witness :
  (fst (run_test B_t1 initial_world) = true ∧
   run_and_record B_t1 (empty_report 2 2, initial_world) =
     Ok ({| num_passed_tests := 1;
            failed_tests := failed_tests (empty_report 2 2);
            num_failed_tests := 0 |},
         snd (run_test B_t1 initial_world))) ∧
  (∃ report w',
     run_all_tests 2 2 sample_env initial_world = Ok (report, w') ∧
     B_t1 ∉ failed_view report).
Proof.
  split.
  - apply (proj1 (null_func_passes 2 2) B_t1 (empty_report 2 2) initial_world); reflexivity.
  - eexists _, _. split; [vm_compute; reflexivity|].
    eapply (proj2 (null_func_passes 2 2) 5 sample_registry sample_env initial_world).
    + vm_compute. reflexivity.
    + reflexivity.
    + vm_compute. reflexivity.
    + reflexivity.
Defined.

Lemma failure_signal_scoped_witness :
  (∃ report1 w1,
     reaches run_suite [ {| name := "A"; tests := [A_t1; A_t2]; num_tests := 2 |};
                               {| name := "B"; tests := [B_t1; zero_test]; num_tests := 1 |} ]
       (empty_report 2 2, initial_world)
       {| name := "B"; tests := [B_t1; zero_test]; num_tests := 1 |} (report1, w1) ∧
     failed_view report1 = [A_t2] ∧
     g_current_test_failed (print (SuiteNotice 1 "B") w1) = false) ∧
  (∃ report w',
     run_all_tests 2 2 sample_env initial_world = Ok (report, w') ∧
     g_current_test_failed w' = false ∧
     failed_view report = [A_t2]).
Proof.
  destruct (failure_signal_scoped 2 2 sample_env initial_world) as (_ & _ & Hrun).
  destruct (Hrun eq_refl) as [Hstart Hend]. split.
  - eexists _, _. split; [|split].
    + eapply reaches_later; [vm_compute; reflexivity|]. apply reaches_here.
    + reflexivity.
    + eapply (Hstart {| name := "B"; tests := [B_t1; zero_test]; num_tests := 1 |}
                _ _ B_t1).
      * eapply reaches_later; [vm_compute; reflexivity|]. apply reaches_here.
      * apply reaches_here.
  - eexists _, _. split; [vm_compute; reflexivity|].
    eapply Hend. vm_compute. reflexivity.
Defined.

Lemma arrays_stay_in_bounds_witness :
  env_wf 2 2 sample_env ∧
  total_num_tests sample_env ≤ RKTEST_MAX_NUM_TESTS 2 2 ∧
  ∃ report w',
    run_all_tests 2 2 sample_env initial_world = Ok (report, w') ∧
    length (failed_tests report) = RKTEST_MAX_NUM_TESTS 2 2 ∧
    num_failed_tests report ≤ RKTEST_MAX_NUM_TESTS 2 2.
Proof.
  apply (proj2 (proj2 (arrays_stay_in_bounds 2 2 5 sample_registry)) sample_env initial_world).
  vm_compute. reflexivity.
Defined.

(** ** Instances of the further properties *)

Lemma sample_env_wf : env_wf 2 2 sample_env.
Proof.
  split; [reflexivity|]. split; [simpl; lia|]. simpl.
  apply Forall_cons. split; [split; simpl; lia|].
  apply Forall_cons. split; [split; simpl; lia|]. constructor.
Qed.

Lemma skip_until_next_test_first_test_witness :
  ∃ it', skip_until_next_test 10 sample_registry 3 = Ok it' ∧
         3 < it' ≤ test_data_end sample_registry ∧
         (∀ j, 3 < j < it' → deref sample_registry j = Some None) ∧
         (it' = test_data_end sample_registry ∨
          ∃ test, deref sample_registry it' = Some (Some test)).
Proof.
  apply (skip_until_next_test_first_test 10 sample_registry 3);
    unfold test_data_end; simpl; lia.
Defined.

Lemma setup_test_env_padding_witness :
  setup_test_env 2 2 5 [None; Some A_t1; None; Some B_t1] =
  setup_test_env 2 2 6 [Some A_t2; None; None; Some A_t1; Some B_t1].
Proof.
  apply (setup_test_env_padding 2 2 5 6 None (Some A_t2)
           [Some A_t1; None; Some B_t1] [None; None; Some A_t1; Some B_t1]).
  - simpl. lia.
  - simpl. lia.
  - reflexivity.
Defined.

Lemma find_suite_with_name_first_witness :
  find_suite_with_name (test_suites sample_env) 2 "B" = Some 1 ∧
  find_suite_with_name (test_suites sample_env) 1 "B" = None.
Proof.
  destruct (find_suite_with_name_first (test_suites sample_env) 2 "B") as [Hsome _].
  destruct (find_suite_with_name_first (test_suites sample_env) 1 "B") as [_ Hnone].
  split.
  - apply Hsome. split; [lia|]. split.
    + eexists. split; reflexivity.
    + intros [|j] suite Hj; [|lia]. intros [= <-]. discriminate.
  - apply Hnone. intros [|j] suite Hj; [|lia]. intros [= <-]. discriminate.
Defined.

Lemma find_or_add_suite_found_witness :
  ∃ env', find_or_add_suite 2 (empty_env 2 2) "A" = Ok (env', 0) ∧
          find_suite_with_name (test_suites env') (num_test_suites env') "A" = Some 0 ∧
          find_or_add_suite 2 env' "A" = Ok (env', 0) ∧
          num_test_suites env' = 1.
Proof.
  eexists. split; [vm_compute; reflexivity|].
  destruct (find_or_add_suite_found 2 (empty_env 2 2) _ "A" 0 eq_refl)
    as (Hfound & Hagain & _).
  split; [exact Hfound|]. split; [exact Hagain|reflexivity].
Defined.

Lemma find_or_add_suite_overflow_witness :
  find_or_add_suite 2 sample_env "C" = Undefined ArrayOverflow ∧
  find_or_add_suite 2 sample_env "B" = Ok (sample_env, 1).
Proof.
  split.
  - apply (proj1 (find_or_add_suite_overflow 2 2 sample_env "C" sample_env_wf)).
    split; reflexivity.
  - apply (proj2 (find_or_add_suite_overflow 2 2 sample_env "B" sample_env_wf)).
    reflexivity.
Defined.

Lemma setup_test_env_total_witness :
  total_num_tests sample_env =
    sum_list_with num_tests (take (num_test_suites sample_env) (test_suites sample_env)) ∧
  total_num_tests sample_env = length (scheduled sample_env).
Proof.
  apply (setup_test_env_total 2 2 5 sample_registry sample_env). vm_compute. reflexivity.
Defined.

Lemma setup_test_env_groups_padded_witness :
  env_view sample_env = spec_group (descriptors sample_registry) ∧
  total_num_tests sample_env = length (descriptors sample_registry) ∧
  num_test_suites sample_env =
    length (first_seen (suite_name <$> descriptors sample_registry)).
Proof.
  apply (setup_test_env_groups_padded 2 2 5 [Some A_t1; Some A_t2; None; Some B_t1] sample_env).
  - simpl. lia.
  - vm_compute. reflexivity.
Defined.

Lemma setup_test_env_suites_witness :
  NoDup (fst <$> env_view sample_env) ∧
  ∀ n ts, (n, ts) ∈ env_view sample_env →
    ts ≠ [] ∧ ∀ test, test ∈ ts → suite_name test = n.
Proof.
  apply (setup_test_env_suites 2 2 5 None [Some A_t1; Some A_t2; None; Some B_t1] sample_env).
  - simpl. lia.
  - vm_compute. reflexivity.
Defined.

Lemma setup_test_env_schedules_all_witness :
  scheduled sample_env ≡ₚ descriptors [Some A_t1; Some A_t2; None; Some B_t1].
Proof.
  apply (setup_test_env_schedules_all 2 2 5 None [Some A_t1; Some A_t2; None; Some B_t1]).
  - simpl. lia.
  - vm_compute. reflexivity.
Defined.

Lemma setup_test_env_over_limit_witness :
  ∃ d, setup_test_env 2 2 5 [None; Some A_t1; Some A_t2; Some A_t1] = Exit d.
Proof.
  apply (setup_test_env_over_limit 2 2 5 None [Some A_t1; Some A_t2; Some A_t1]).
  - simpl. lia.
  - right. exists "A". vm_compute. lia.
Defined.

Lemma setup_test_env_diagnostic_witness :
  ∃ i test,
    descriptors [Some A_t1; Some A_t2; Some A_t1] !! i = Some test ∧
    (∀ j test', j < i → descriptors [Some A_t1; Some A_t2; Some A_t1] !! j = Some test' →
       length (first_seen (suite_name <$>
                 take j (descriptors [Some A_t1; Some A_t2; Some A_t1]))) ≠ 2 ∧
       length (tests_of (suite_name test')
                 (take j (descriptors [Some A_t1; Some A_t2; Some A_t1]))) ≠ 2) ∧
    "A" = suite_name test ∧
    length (first_seen (suite_name <$>
              take i (descriptors [Some A_t1; Some A_t2; Some A_t1]))) ≠ 2 ∧
    length (tests_of "A" (take i (descriptors [Some A_t1; Some A_t2; Some A_t1]))) = 2.
Proof.
  apply (setup_test_env_diagnostic 2 2 5 None [Some A_t1; Some A_t2; Some A_t1]
           (TooManyTests "A")).
  - simpl. lia.
  - vm_compute. reflexivity.
Defined.

Lemma setup_test_env_with_slack_witness :
  ∃ env, setup_test_env 3 2 5 sample_registry = Ok env ∧
         env_view env = spec_group (descriptors [Some A_t1; Some A_t2; None; Some B_t1]) ∧
         total_num_tests env = length (descriptors [Some A_t1; Some A_t2; None; Some B_t1]).
Proof.
  apply (setup_test_env_with_slack 3 2 5 None [Some A_t1; Some A_t2; None; Some B_t1]).
  - simpl. lia.
  - vm_compute. lia.
  - intros n. unfold tests_of, descriptors. simpl.
    rewrite !filter_cons, filter_nil. repeat case_decide; simplify_eq; simpl; lia.
Defined.


Lemma run_all_tests_stale_signal_witness :
  fst (run_test B_t1 (rktest_fail_current_test initial_world)) = false ∧
  ∃ report w',
    run_all_tests 2 2 sample_env (rktest_fail_current_test initial_world) = Ok (report, w') ∧
    failed_view report = [A_t1; A_t2].
Proof.
  assert (∃ report w',
            run_all_tests 2 2 sample_env (rktest_fail_current_test initial_world) =
            Ok (report, w'))
    as (report & w' & Hrun) by (eexists _, _; vm_compute; reflexivity).
  destruct (run_all_tests_stale_signal 2 2 5 sample_registry sample_env
              (rktest_fail_current_test initial_world) w' report eq_refl)
    as [Hfirst Hrest].
  split; [apply Hfirst|]. exists report, w'. split; [done|].
  apply (Hrest sample_env_built Hrun A_t1 [A_t2; B_t1] eq_refl).
Defined.


Lemma run_all_tests_output_witness :
  ∃ report w' out,
    run_all_tests 2 2 sample_env initial_world = Ok (report, w') ∧
    output w' = output initial_world ++ out ∧
    run_lines out = test_id <$> scheduled sample_env ∧
    failed_lines out = test_id <$> failed_view report ∧
    length (ok_lines out) = num_passed_tests report.
Proof.
  assert (∃ report w', run_all_tests 2 2 sample_env initial_world = Ok (report, w'))
    as (report & w' & Hrun) by (eexists _, _; vm_compute; reflexivity).
  destruct (run_all_tests_output 2 2 sample_env initial_world w' report Hrun)
    as (out & Hout & Hruns & Hfailed & Hok & _).
  by exists report, w', out.
Defined.

Lemma rktest_main_output_witness :
  ∃ status report w' out,
    rktest_main_report 2 2 5 sample_registry initial_world = Ok (status, report, w') ∧
    output w' = output initial_world ++ out ∧
    failed_lines out = (test_id <$> failed_view report) ++ (test_id <$> failed_view report) ∧
    failed_count_lines out =
      (if decide (status = 0%Z) then [num_failed_tests report] else []) ∧
    rktest_colors_enabled w' = true.
Proof.
  assert (∃ status report w',
            rktest_main_report 2 2 5 sample_registry initial_world = Ok (status, report, w'))
    as (status & report & w' & Hmain) by (eexists _, _, _; vm_compute; reflexivity).
  destruct (rktest_main_output 2 2 5 sample_registry initial_world w' status report Hmain)
    as (env & out & _ & Hout & _ & _ & _ & _ & _ & Hfailed & Hcount & Hcol).
  by exists status, report, w', out.
Defined.

Lemma rktest_main_verdict_witness :
  ∃ w', rktest_main 2 2 5 sample_registry initial_world = Ok (0%Z, w') ∧
        (∃ t, t ∈ descriptors sample_registry ∧ signals_failure t = true) ∧
        g_current_test_failed w' = false.
Proof.
  assert (∃ w', rktest_main 2 2 5 sample_registry initial_world = Ok (0%Z, w'))
    as (w' & Hmain) by (eexists; vm_compute; reflexivity).
  destruct (rktest_main_verdict 2 2 5 [Some A_t1; Some A_t2; None; Some B_t1]
              initial_world w' 0%Z ltac:(simpl; lia) eq_refl Hmain)
    as (_ & Hzero & Hclear).
  exists w'. split; [done|]. split; [by apply Hzero|done].
Defined.
